(** * IS-IS link-state database (protocols/isis/server/lsdb.go)

    A shallow embedding of the LSDB of the IS-IS server: the store
    [lsps : map[packet.LSPID]*lsdbEntry], the receive handlers
    [processLSP], [processCSNP], [processPSNP], the aging step
    [decrementRemainingLifetimes] and the three transmit routines.

    Conventions of the embedding.
    - Unsigned Go integers ([uint16] lifetime, [uint32] sequence number,
      the 8 octets of an LSPID read big-endian) are values of [N].  No
      operation of lsdb.go adds to them; the only subtraction is guarded
      by [> 1], so no wrap-around can occur and none is written out.
    - [map[packet.LSPID]*lsdbEntry] is a [gmap N lsdbEntry].  An entry is
      reached through exactly one key, so mutation through the pointer is
      an update of the map at that key.
    - [*netIfa] pointers are compared by identity in Go.  An interface is
      the record [netIfa.t] carrying its name; two pointers are equal iff
      the records are.
    - A [for k, v := range m] loop over a Go map is a [map_fold] whose
      accumulator is the map being mutated.
    - Every routine runs with [lspsMu] held, so it is one atomic step on
      the store.  Sending a PDU appends an event to a trace. *)

From stdpp Require Import gmap strings list fin_maps.

Local Open Scope N_scope.
#[local] Set Warnings "-clear-no-such-hyp".

(** ** packet: the PDUs the LSDB handles *)

Module LSPDU.
Record t := mk {
  LSPID : N;
  SequenceNumber : N;
  RemainingLifetime : N;
  Checksum : N;
  TLVs : list N
}.
End LSPDU.

Module LSPEntry.
Record t := mk {
  SequenceNumber : N;
  RemainingLifetime : N;
  LSPID : N;
  Checksum : N
}.
End LSPEntry.

(** Modelled from the spec: the method [ToLSPEntry] of LSPDU of package packet is
    outside the files embedded here.  "An LSPDU can always be projected to
    an LSPEntry": the four summary fields are copied, the payload is
    dropped. *)
Definition ToLSPEntry (p : LSPDU.t) : LSPEntry.t :=
  {| LSPEntry.SequenceNumber := LSPDU.SequenceNumber p;
     LSPEntry.RemainingLifetime := LSPDU.RemainingLifetime p;
     LSPEntry.LSPID := LSPDU.LSPID p;
     LSPEntry.Checksum := LSPDU.Checksum p |}.

Module CSNP.
Record t := mk {
  SourceID : N;
  StartLSPID : N;
  EndLSPID : N;
  LSPEntries : list LSPEntry.t
}.

Definition GetLSPEntries (c : t) : list LSPEntry.t := LSPEntries c.

(** Modelled from the spec: the method [RangeContainsLSPID] of CSNP, of package
    packet is outside the files embedded here.  "A CSNP describes a
    contiguous range [start_id, end_id] of LSPIDs": both ends belong to
    the range. *)
Definition RangeContainsLSPID (c : t) (needle : N) : bool :=
  (StartLSPID c <=? needle) && (needle <=? EndLSPID c).

(** Modelled from the spec: the method [ContainsLSPEntry] of CSNP, of package packet
    is outside the files embedded here.  An LSPID is "listed in the CSNP"
    when one of the carried LSPEntries has it. *)
Definition ContainsLSPEntry (c : t) (needle : N) : bool :=
  existsb (fun e => LSPEntry.LSPID e =? needle) (LSPEntries c).
End CSNP.

Module PSNP.
Record t := mk {
  SourceID : N;
  LSPEntries : list LSPEntry.t
}.

Definition GetLSPEntries (p : t) : list LSPEntry.t := LSPEntries p.
End PSNP.

(** ** The interface object and the server context *)

Module netIfa.
Record InterfaceConfig := mkCfg { Passive : bool }.

(** [neighborManagerL2] stands for the result of
    [ifa.neighborManagerL2.getNeighborsUp()], the system ids of the L2
    neighbours that are up, and [ethHandler] for
    [ifa.ethHandler.GetMTU()]. *)
Record t := mk {
  name : string;
  cfg : InterfaceConfig;
  neighborManagerL2 : list N;
  ethHandler : N
}.

Definition getNeighborsUp (i : t) : list N := neighborManagerL2 i.
Definition GetMTU (i : t) : N := ethHandler i.

Definition to_tuple (i : t) : string * bool * list N * N :=
  (name i, Passive (cfg i), neighborManagerL2 i, ethHandler i).

Definition of_tuple (p : string * bool * list N * N) : t :=
  let '(n, b, ns, m) := p in mk n (mkCfg b) ns m.

Definition of_to_tuple (i : t) : of_tuple (to_tuple i) = i :=
  match i with mk _ (mkCfg _) _ _ => eq_refl end.
End netIfa.

#[global] Instance InterfaceConfig_eq_dec : EqDecision netIfa.InterfaceConfig.
Proof. solve_decision. Defined.

#[global] Instance netIfa_eq_dec : EqDecision netIfa.t.
Proof. solve_decision. Defined.

#[global] Instance netIfa_countable : Countable netIfa.t.
Proof.
  exact (inj_countable' netIfa.to_tuple netIfa.of_tuple netIfa.of_to_tuple).
Defined.

Module Server.
(** [netIfaManager] stands for the interfaces the manager holds, in the
    order [getAllInterfaces] returns them; [nets] for the SystemID of
    each configured NET. *)
Record t := mk {
  netIfaManager : list netIfa.t;
  nets : list N
}.

Definition getAllInterfaces (s : t) : list netIfa.t := netIfaManager s.

(** Modelled from the spec: the method [getAllInterfacesExcept] of netIfaManager is
    outside the files embedded here.  "all_interfaces_except(ifa)": the
    managed interfaces other than [ifa], in the same order. *)
Definition getAllInterfacesExcept (s : t) (ifa : netIfa.t) : list netIfa.t :=
  filter (λ i, i ≠ ifa) (netIfaManager s).
End Server.

(** ** lsdbEntry: an LSPDU and its SRM and SSN flags

    lsdb_entry.go is outside the files embedded here; the type and its
    methods follow the data model of the specification: "an LSPDU plus
    two per-interface flag sets, srm and ssn". *)

Record lsdbEntry := mkEntry {
  lspdu : LSPDU.t;
  srmFlags : gset netIfa.t;
  ssnFlags : gset netIfa.t
}.

(** Modelled from the spec: [newLSDBEntry] is missing; "build a new
    LSDBEntry from the LSPDU", with no flag set yet. *)
Definition newLSDBEntry (p : LSPDU.t) : lsdbEntry :=
  {| lspdu := p; srmFlags := ∅; ssnFlags := ∅ |}.

(** Modelled from the spec: [newEmptyLSDBEntry] is missing; the empty
    entry "holds only the LSPEntry summary; its SequenceNumber is recorded
    but the LSPDU payload is absent". *)
Definition newEmptyLSDBEntry (e : LSPEntry.t) : lsdbEntry :=
  {| lspdu :=
       {| LSPDU.LSPID := LSPEntry.LSPID e;
          LSPDU.SequenceNumber := LSPEntry.SequenceNumber e;
          LSPDU.RemainingLifetime := LSPEntry.RemainingLifetime e;
          LSPDU.Checksum := LSPEntry.Checksum e;
          LSPDU.TLVs := [] |};
     srmFlags := ∅; ssnFlags := ∅ |}.

(** Modelled from the spec: [setSRM] is missing; "set_srm(ifa)". *)
Definition setSRM (ifa : netIfa.t) (e : lsdbEntry) : lsdbEntry :=
  {| lspdu := lspdu e; srmFlags := {[ifa]} ∪ srmFlags e; ssnFlags := ssnFlags e |}.

(** Modelled from the spec: [clearSRMFlag] is missing; "clear_srm(ifa)". *)
Definition clearSRMFlag (ifa : netIfa.t) (e : lsdbEntry) : lsdbEntry :=
  {| lspdu := lspdu e; srmFlags := srmFlags e ∖ {[ifa]}; ssnFlags := ssnFlags e |}.

(** Modelled from the spec: [setSSN] is missing; "set_ssn(ifa)". *)
Definition setSSN (ifa : netIfa.t) (e : lsdbEntry) : lsdbEntry :=
  {| lspdu := lspdu e; srmFlags := srmFlags e; ssnFlags := {[ifa]} ∪ ssnFlags e |}.

(** Modelled from the spec: [clearSSNFlag] is missing; "clear_ssn(ifa)". *)
Definition clearSSNFlag (ifa : netIfa.t) (e : lsdbEntry) : lsdbEntry :=
  {| lspdu := lspdu e; srmFlags := srmFlags e; ssnFlags := ssnFlags e ∖ {[ifa]} |}.

(** Modelled from the spec: [clearAllSSNFlags] is missing;
    "clear_all_ssn()". *)
Definition clearAllSSNFlags (e : lsdbEntry) : lsdbEntry :=
  {| lspdu := lspdu e; srmFlags := srmFlags e; ssnFlags := ∅ |}.

(** Modelled from the spec: [getInterfacesSRMSet] is missing;
    "interfaces_with_srm_set() → Vec<ifa>". *)
Definition getInterfacesSRMSet (e : lsdbEntry) : list netIfa.t :=
  elements (srmFlags e).

(** Modelled from the spec: [getSSN] is missing; "ssn_set_on(ifa)". *)
Definition getSSN (ifa : netIfa.t) (e : lsdbEntry) : bool :=
  bool_decide (ifa ∈ ssnFlags e).

(** The SRM counterpart of [getSSN], used to state the flag claims. *)
Definition getSRM (ifa : netIfa.t) (e : lsdbEntry) : bool :=
  bool_decide (ifa ∈ srmFlags e).

(** Modelled from the spec: [processSameLSPDU] is missing; "process_same:
    clear SRM on ifa, set SSN on ifa". *)
Definition processSameLSPDU (ifa : netIfa.t) (e : lsdbEntry) : lsdbEntry :=
  setSSN ifa (clearSRMFlag ifa e).

(** Modelled from the spec: [newerLocalLSPDU] is missing; "newer_local:
    set SRM on ifa, clear SSN on ifa". *)
Definition newerLocalLSPDU (ifa : netIfa.t) (e : lsdbEntry) : lsdbEntry :=
  clearSSNFlag ifa (setSRM ifa e).

(** The in-place [lspdu.RemainingLifetime--] of the aging loop. *)
Definition decRemainingLifetime (e : lsdbEntry) : lsdbEntry :=
  {| lspdu :=
       {| LSPDU.LSPID := LSPDU.LSPID (lspdu e);
          LSPDU.SequenceNumber := LSPDU.SequenceNumber (lspdu e);
          LSPDU.RemainingLifetime := LSPDU.RemainingLifetime (lspdu e) - 1;
          LSPDU.Checksum := LSPDU.Checksum (lspdu e);
          LSPDU.TLVs := LSPDU.TLVs (lspdu e) |};
     srmFlags := srmFlags e; ssnFlags := ssnFlags e |}.

(** ** Sends and the execution monad

    The send primitives of the interface ([sendLSPDU], [sendCSNP],
    [sendPSNP]) are recorded as events.  A routine is a computation that
    has written a trace and either returned or panicked (Go's index out
    of range on [l.srv.nets[0]]). *)

Inductive event :=
| sendLSPDU (ifa : netIfa.t) (p : LSPDU.t) (level : nat)
| sendCSNP (ifa : netIfa.t) (c : CSNP.t) (level : nat)
| sendPSNP (ifa : netIfa.t) (p : PSNP.t) (level : nat).

Definition event_ifa (ev : event) : netIfa.t :=
  match ev with
  | sendLSPDU ifa _ _ | sendCSNP ifa _ _ | sendPSNP ifa _ _ => ifa
  end.

Definition Exec (A : Type) : Type := (list event * option A)%type.

Definition ret {A} (a : A) : Exec A := ([], Some a).

Definition panic {A} : Exec A := ([], None).

Definition emit (ev : event) : Exec unit := ([ev], Some tt).

Definition bind {A B} (m : Exec A) (k : A → Exec B) : Exec B :=
  match m with
  | (t, None) => (t, None)
  | (t, Some a) => let '(t', r) := k a in (t ++ t', r)
  end.

Notation "x ←_E m ;; k" := (bind m (λ x, k))
  (at level 100, m at next level, right associativity).
Notation "m ;;_E k" := (bind m (λ _, k))
  (at level 100, right associativity).

(** [for _, x := range xs { body }] over a slice. *)
Fixpoint forEach {A} (xs : list A) (body : A → Exec unit) : Exec unit :=
  match xs with
  | [] => ret tt
  | x :: xs' => body x ;;_E forEach xs' body
  end.

Definition trace {A} (m : Exec A) : list event := m.1.
Definition outcome {A} (m : Exec A) : option A := m.2.

(** ** The LSDB *)

(** [isL1] stands for the pointer comparison [l.srv.lsdbL1 == l]. *)
Record lsdb := mkLSDB {
  srv : Server.t;
  lsps : gmap N lsdbEntry;
  isL1 : bool
}.

Definition with_lsps (l : lsdb) (m : gmap N lsdbEntry) : lsdb :=
  {| srv := srv l; lsps := m; isL1 := isL1 l |}.

Definition newLSDB (s : Server.t) (l1 : bool) : lsdb :=
  {| srv := s; lsps := ∅; isL1 := l1 |}.

Definition level (l : lsdb) : nat := if isL1 l then 1%nat else 2%nat.

Definition decrementRemainingLifetimes (l : lsdb) : lsdb :=
  with_lsps l
    (map_fold
       (λ lspid lspdbEntry acc,
          if LSPDU.RemainingLifetime (lspdu lspdbEntry) <=? 1
          then delete lspid acc
          else <[lspid := decRemainingLifetime lspdbEntry]> acc)
       (lsps l) (lsps l)).

Definition setSRMAllLSPs (ifa : netIfa.t) (l : lsdb) : lsdb :=
  with_lsps l
    (map_fold (λ lspid lsp acc, <[lspid := setSRM ifa lsp]> acc)
       (lsps l) (lsps l)).

Definition sendLSPDUs (l : lsdb) : Exec unit :=
  forEach (map_to_list (lsps l)) (λ kv,
    forEach (getInterfacesSRMSet kv.2) (λ ifa,
      if netIfa.Passive (netIfa.cfg ifa) then ret tt
      else emit (sendLSPDU ifa (lspdu kv.2) (level l)))).

Definition _getLSPDU (l : lsdb) (needle : N) : option lsdbEntry :=
  lsps l !! needle.

Definition _exists (l : lsdb) (pkt : LSPDU.t) : bool :=
  bool_decide (is_Some (lsps l !! LSPDU.LSPID pkt)).

Definition processCSNPLSPEntryUnknown
    (lspEntry : LSPEntry.t) (from : netIfa.t) (l : lsdb) : lsdb :=
  let lsps1 := <[LSPEntry.LSPID lspEntry := newEmptyLSDBEntry lspEntry]> (lsps l) in
  with_lsps l (alter (setSSN from) (LSPEntry.LSPID lspEntry) lsps1).

Definition processPSNP (from : netIfa.t) (psnp : PSNP.t) (l : lsdb) : lsdb :=
  with_lsps l
    (foldl
       (λ acc lspEntry,
          match acc !! LSPEntry.LSPID lspEntry with
          | None => acc
          | Some _ => alter (clearSRMFlag from) (LSPEntry.LSPID lspEntry) acc
          end)
       (lsps l) (PSNP.GetLSPEntries psnp)).

Definition _getLSPWithSSNSet (l : lsdb) (ifa : netIfa.t) : list LSPEntry.t :=
  foldl
    (λ ret kv, if negb (getSSN ifa kv.2) then ret
               else ret ++ [ToLSPEntry (lspdu kv.2)])
    [] (map_to_list (lsps l)).

Definition _clearAllSSNFlags (l : lsdb) : lsdb :=
  with_lsps l
    (map_fold (λ lspid e acc, <[lspid := clearAllSSNFlags e]> acc)
       (lsps l) (lsps l)).

Definition getLSPEntries (l : lsdb) : list LSPEntry.t :=
  foldl (λ ret kv, ret ++ [ToLSPEntry (lspdu kv.2)]) [] (map_to_list (lsps l)).

Definition processNewerLSPDU (ifa : netIfa.t) (p : LSPDU.t) (l : lsdb) : lsdb :=
  let lsdbEntry0 :=
    foldl (λ e i, setSRM i e) (newLSDBEntry p)
      (Server.getAllInterfacesExcept (srv l) ifa) in
  let lsdbEntry1 := setSSN ifa (clearSRMFlag ifa lsdbEntry0) in
  with_lsps l (<[LSPDU.LSPID p := lsdbEntry1]> (lsps l)).

Definition processLSP (ifa : netIfa.t) (p : LSPDU.t) (l : lsdb) : lsdb :=
  match lsps l !! LSPDU.LSPID p with
  | None => processNewerLSPDU ifa p l
  | Some existingLSDBEntry =>
      if LSPDU.SequenceNumber (lspdu existingLSDBEntry) <? LSPDU.SequenceNumber p
      then processNewerLSPDU ifa p l
      else if LSPDU.SequenceNumber p =? LSPDU.SequenceNumber (lspdu existingLSDBEntry)
      then with_lsps l
             (<[LSPDU.LSPID p := processSameLSPDU ifa existingLSDBEntry]> (lsps l))
      else with_lsps l
             (<[LSPDU.LSPID p := newerLocalLSPDU ifa existingLSDBEntry]> (lsps l))
  end.

Inductive operation :=
| Aging
| ReceiveLSP (ifa : netIfa.t) (p : LSPDU.t)
| ReceiveCSNP (from : netIfa.t) (csnp : CSNP.t)
| ReceivePSNP (from : netIfa.t) (psnp : PSNP.t)
| TransmitLSPDUs
| TransmitCSNPs
| TransmitPSNPs.

Section Collaborators.

(** The three comparators of lsdb_entry.go against an inbound LSPEntry
    and the two packers of package packet are outside the files embedded
    here.  The routines below are parametric in them. *)
Variable sameAsInLSPEntry : lsdbEntry → LSPEntry.t → bool.
Variable newerInDatabase : lsdbEntry → LSPEntry.t → bool.
Variable olderInDatabase : lsdbEntry → LSPEntry.t → bool.
Variable NewPSNPs : N → list LSPEntry.t → N → list PSNP.t.
Variable NewCSNPs : N → list LSPEntry.t → N → list CSNP.t.

Definition processCSNPLSPEntry
    (lspEntry : LSPEntry.t) (from : netIfa.t) (l : lsdb) : lsdb :=
  match _getLSPDU l (LSPEntry.LSPID lspEntry) with
  | None => processCSNPLSPEntryUnknown lspEntry from l
  | Some e =>
      if sameAsInLSPEntry e lspEntry
      then with_lsps l (<[LSPEntry.LSPID lspEntry := clearSRMFlag from e]> (lsps l))
      else if newerInDatabase e lspEntry
      then with_lsps l
             (<[LSPEntry.LSPID lspEntry := setSRM from (clearSSNFlag from e)]> (lsps l))
      else if olderInDatabase e lspEntry
      then with_lsps l
             (<[LSPEntry.LSPID lspEntry := setSSN from (clearSRMFlag from e)]> (lsps l))
      else l
  end.

(** The first loop of [processCSNP]. *)
Definition processCSNPEntries
    (from : netIfa.t) (entries : list LSPEntry.t) (l : lsdb) : lsdb :=
  foldl (λ acc lspEntry, processCSNPLSPEntry lspEntry from acc) l entries.

(** The second loop of [processCSNP]: the LSPs we hold that the
    neighbour did not describe. *)
Definition processCSNPGaps (from : netIfa.t) (csnp : CSNP.t) (l : lsdb) : lsdb :=
  with_lsps l
    (map_fold
       (λ lspID lsdbEntry acc,
          if (LSPDU.RemainingLifetime (lspdu lsdbEntry) <=? 0)
             || (LSPDU.SequenceNumber (lspdu lsdbEntry) <=? 0)
          then acc
          else if negb (CSNP.RangeContainsLSPID csnp lspID) then acc
          else if negb (CSNP.ContainsLSPEntry csnp lspID)
          then <[lspID := setSRM from lsdbEntry]> acc
          else acc)
       (lsps l) (lsps l)).

Definition processCSNP (from : netIfa.t) (csnp : CSNP.t) (l : lsdb) : lsdb :=
  processCSNPGaps from csnp
    (processCSNPEntries from (CSNP.GetLSPEntries csnp) l).

Definition getCSNPs (l : lsdb) (ifa : netIfa.t) : Exec (list CSNP.t) :=
  match Server.nets (srv l) !! 0%nat with
  | None => panic
  | Some systemID =>
      ret (NewCSNPs systemID (getLSPEntries l) (netIfa.GetMTU ifa))
  end.

Definition sendCSNPs (l : lsdb) (ifa : netIfa.t) : Exec unit :=
  cs ←_E getCSNPs l ifa ;;
  forEach cs (λ c, emit (sendCSNP ifa c (level l))).

Definition sendCSNPss (l : lsdb) : Exec unit :=
  forEach (Server.getAllInterfaces (srv l)) (λ ifa,
    if (length (netIfa.getNeighborsUp ifa) <? 1)%nat then ret tt
    else sendCSNPs l ifa).

Definition sendPSNPss (l : lsdb) : Exec lsdb :=
  match Server.nets (srv l) !! 0%nat with
  | None => panic
  | Some srcID =>
      forEach (Server.getAllInterfaces (srv l)) (λ ifa,
        if netIfa.Passive (netIfa.cfg ifa) then ret tt
        else
          let lspdus := _getLSPWithSSNSet l ifa in
          forEach (NewPSNPs srcID lspdus (netIfa.GetMTU ifa)) (λ psnp,
            emit (sendPSNP ifa psnp (level l)))) ;;_E
      ret (_clearAllSSNFlags l)
  end.

(** ** The LSDB as a state machine

    Every routine holds [lspsMu] for its whole body, so between two
    critical sections the store is the result of a sequence of the
    operations below.  [run] gives the store an operation leaves; the
    transmit routines that only read it leave it as it was, and a
    panicking [sendPSNPss] has not yet touched it. *)

Definition run (o : operation) (l : lsdb) : lsdb :=
  match o with
  | Aging => decrementRemainingLifetimes l
  | ReceiveLSP ifa p => processLSP ifa p l
  | ReceiveCSNP from csnp => processCSNP from csnp l
  | ReceivePSNP from psnp => processPSNP from psnp l
  | TransmitLSPDUs => l
  | TransmitCSNPs => l
  | TransmitPSNPs =>
      match outcome (sendPSNPss l) with Some l' => l' | None => l end
  end.

Inductive reachable (ok : operation → Prop) : lsdb → Prop :=
| reachable_new (s : Server.t) (l1 : bool) : reachable ok (newLSDB s l1)
| reachable_run (o : operation) (l : lsdb) :
    reachable ok l → ok o → reachable ok (run o l).

End Collaborators.

(** ** Auxiliary definitions used by the statements *)

(** What one tick does to a single entry: [None] is deletion. *)
Definition age (e : lsdbEntry) : option lsdbEntry :=
  if LSPDU.RemainingLifetime (lspdu e) <=? 1 then None
  else Some (decRemainingLifetime e).

(** ** Sample data for the scenarios *)

Definition ifA : netIfa.t := netIfa.mk "A" (netIfa.mkCfg false) [101] 1500.
Definition ifB : netIfa.t := netIfa.mk "B" (netIfa.mkCfg false) [102] 1500.
Definition ifC : netIfa.t := netIfa.mk "C" (netIfa.mkCfg false) [] 1500.
Definition ifP : netIfa.t := netIfa.mk "P" (netIfa.mkCfg true) [103] 1500.

Definition srv3 : Server.t := Server.mk [ifA; ifB; ifC] [7].
Definition srvP : Server.t := Server.mk [ifA; ifP] [7].

Definition lspX (seq lifetime : N) : LSPDU.t := LSPDU.mk 10 seq lifetime 0 [1; 2].
Definition lspZ (seq lifetime : N) : LSPDU.t := LSPDU.mk 30 seq lifetime 0 [].

Definition empty3 : lsdb := newLSDB srv3 false.

(** The LSPID [k] is carried by one of the LSPEntries [es]. *)
Definition listed (es : list LSPEntry.t) (k : N) : bool :=
  existsb (λ e, LSPEntry.LSPID e =? k) es.

(** The store of scenario "older reflood": X at sequence number 7,
    learnt on B. *)
Definition storeX7 : lsdb := processLSP ifB (lspX 7 900) empty3.
Definition entryX7 : lsdbEntry := mkEntry (lspX 7 900) {[ifA; ifC]} {[ifB]}.

(** The conditions under which the second loop of [processCSNP] sets
    SRM for the store entry [e] held under [k]. *)
Definition isGap (csnp : CSNP.t) (k : N) (e : lsdbEntry) : bool :=
  CSNP.RangeContainsLSPID csnp k
  && negb (CSNP.ContainsLSPEntry csnp k)
  && (0 <? LSPDU.RemainingLifetime (lspdu e))
  && (0 <? LSPDU.SequenceNumber (lspdu e)).

(** No stored entry has remaining lifetime 0. *)
Definition lifetimes_positive (l : lsdb) : Prop :=
  map_Forall (λ _ e, 1 ≤ LSPDU.RemainingLifetime (lspdu e)) (lsps l).

#[global] Instance lifetimes_positive_dec (l : lsdb) : Decision (lifetimes_positive l).
Proof. unfold lifetimes_positive. apply _. Defined.

(** Received PDUs that describe no LSP of remaining lifetime 0. *)
Definition live_input (o : operation) : Prop :=
  match o with
  | ReceiveLSP _ p => 1 ≤ LSPDU.RemainingLifetime p
  | ReceiveCSNP _ csnp =>
      Forall (λ e, 1 ≤ LSPEntry.RemainingLifetime e) (CSNP.GetLSPEntries csnp)
  | _ => True
  end.

Definition any_input (o : operation) : Prop := True.

(** Modelled from the spec: the comparators of lsdb_entry.go are missing.
    "Newer is by sequence_number primarily; on equal sequence numbers,
    newer remaining lifetime ranks newer, and on ties, entries are
    same_as."  The larger remaining lifetime is read as the newer one.
    These instances only serve to run the routines on sample data; every
    statement below holds for arbitrary comparators. *)
Definition sameAsInLSPEntry (d : lsdbEntry) (e : LSPEntry.t) : bool :=
  (LSPDU.SequenceNumber (lspdu d) =? LSPEntry.SequenceNumber e)
  && (LSPDU.RemainingLifetime (lspdu d) =? LSPEntry.RemainingLifetime e).

Definition newerInDatabase (d : lsdbEntry) (e : LSPEntry.t) : bool :=
  (LSPEntry.SequenceNumber e <? LSPDU.SequenceNumber (lspdu d))
  || ((LSPDU.SequenceNumber (lspdu d) =? LSPEntry.SequenceNumber e)
      && (LSPEntry.RemainingLifetime e <? LSPDU.RemainingLifetime (lspdu d))).

Definition olderInDatabase (d : lsdbEntry) (e : LSPEntry.t) : bool :=
  (LSPDU.SequenceNumber (lspdu d) <? LSPEntry.SequenceNumber e)
  || ((LSPDU.SequenceNumber (lspdu d) =? LSPEntry.SequenceNumber e)
      && (LSPDU.RemainingLifetime (lspdu d) <? LSPEntry.RemainingLifetime e)).

(** Modelled from the spec: the packers [NewCSNPs] and [NewPSNPs] of
    package packet are missing.  These are the packers of the spec on a
    link whose MTU holds every summary in one PDU: the entries in input
    order in a single packet; a CSNP spans the lowest to the highest
    LSPID packed, and [0 .. max] when there is none; no PSNP is emitted
    for an empty list.  They only serve to run the routines on sample
    data; every statement below holds for arbitrary packers. *)
Definition maxLSPID : N := 2 ^ 64 - 1.

Definition NewCSNPs (sourceID : N) (es : list LSPEntry.t) (mtu : N) : list CSNP.t :=
  match es with
  | [] => [CSNP.mk sourceID 0 maxLSPID []]
  | e :: es' =>
      [CSNP.mk sourceID
         (foldl (λ lo x, N.min lo (LSPEntry.LSPID x)) (LSPEntry.LSPID e) es')
         (foldl (λ hi x, N.max hi (LSPEntry.LSPID x)) (LSPEntry.LSPID e) es')
         es]
  end.

Definition NewPSNPs (sourceID : N) (es : list LSPEntry.t) (mtu : N) : list PSNP.t :=
  match es with
  | [] => []
  | _ => [PSNP.mk sourceID es]
  end.

(** Scenario data for the CSNP handlers: the store holds X (sequence
    number 4, lifetime 900, learnt on B and acknowledged by a PSNP on
    A); a CSNP from A over the whole range lists only Y. *)
Definition storeX4 : lsdb :=
  processPSNP ifA (PSNP.mk 9 [ToLSPEntry (lspX 4 900)])
    (processLSP ifB (lspX 4 900) empty3).
Definition entryY : LSPEntry.t := LSPEntry.mk 2 800 20 0.
Definition csnpY : CSNP.t := CSNP.mk 9 0 maxLSPID [entryY].

(** A server with the passive interface P, which has one up L2
    neighbour, holding X with SRM and SSN raised on P. *)
Definition storeP : lsdb :=
  setSRMAllLSPs ifP (processLSP ifP (lspX 5 1200) (newLSDB srvP false)).

(** A purge: the LSPDU of X with remaining lifetime 0. *)
Definition purgeX : LSPDU.t := lspX 5 0.

(** ** Further routines of lsdb.go and predicates for their properties *)

(** [decrementRemainingLifetimesRoutine] when [n] ticks arrive on
    [t.C()] before [l.done] is closed: the aging step runs once per
    tick. *)
Fixpoint decrementRemainingLifetimesRoutine (n : nat) (l : lsdb) : lsdb :=
  match n with
  | O => l
  | S n' => decrementRemainingLifetimesRoutine n' (decrementRemainingLifetimes l)
  end.

(** [_isNewer] indexes the map and dereferences the result; for a key
    the map does not hold, Go yields a nil [*lsdbEntry] and the
    dereference panics: [None]. *)
Definition _isNewer (l : lsdb) (pkt : LSPDU.t) : option bool :=
  match lsps l !! LSPDU.LSPID pkt with
  | None => None
  | Some e => Some (LSPDU.SequenceNumber (lspdu e) <? LSPDU.SequenceNumber pkt)
  end.

(** The entry [e] with [n] seconds taken off its remaining lifetime. *)
Definition aged (n : N) (e : lsdbEntry) : lsdbEntry :=
  mkEntry
    (LSPDU.mk (LSPDU.LSPID (lspdu e)) (LSPDU.SequenceNumber (lspdu e))
       (LSPDU.RemainingLifetime (lspdu e) - n)
       (LSPDU.Checksum (lspdu e)) (LSPDU.TLVs (lspdu e)))
    (srmFlags e) (ssnFlags e).

(** Every entry is stored under the LSPID of its own LSPDU. *)
Definition well_keyed (l : lsdb) : Prop :=
  map_Forall (λ k e, LSPDU.LSPID (lspdu e) = k) (lsps l).

#[global] Instance well_keyed_dec (l : lsdb) : Decision (well_keyed l).
Proof. unfold well_keyed. apply _. Defined.

(** [e'] is [e] up to its two flags on the interface [from]. *)
Definition same_on_others (from : netIfa.t) (e e' : lsdbEntry) : Prop :=
  lspdu e' = lspdu e ∧
  ∀ i, i ≠ from →
       (i ∈ srmFlags e' ↔ i ∈ srmFlags e) ∧ (i ∈ ssnFlags e' ↔ i ∈ ssnFlags e).

(** A server without a NET, and an LSDB of it. *)
Definition srvNoNet : Server.t := Server.mk [ifC; ifA] [].
Definition storeNoNet : lsdb := processLSP ifC (lspX 5 1200) (newLSDB srvNoNet true).

(** ** The BGP API server (second part of the file: BGPAPIServer)

    The routes of a peer are streamed to a gRPC client.  The route and
    address types, the conversions [ToProto] and [IPFromProtoIP], the
    RIB dumps of the BGP server and the stream are outside the files
    embedded here: the types are parameters, the RIB dump is a function
    of peer, AFI and SAFI, and the stream is a state with a [Send] that
    may fail.  A pointer is an [option]: [None] is nil, and
    dereferencing it panics. *)

Section BGPAPIServer.
Context {ProtoIP IP Route ProtoRoute Stream Err : Type}.
Variable IPFromProtoIP : ProtoIP → IP.
Variable ToProto : Route → ProtoRoute.
Variable Send : Stream → ProtoRoute → Stream * option Err.

(** [api.DumpRIBRequest]: [Peer] is a pointer, [Afi] and [Safi] are
    32-bit numbers. *)
Record DumpRIBRequest := mkDumpRIBRequest {
  Peer : option ProtoIP;
  Afi : N;
  Safi : N
}.

(** [routesToProto]: a slice of [len(dump)] nil pointers, filled index by
    index. *)
Definition routesToProto (dump : list Route) : list (option ProtoRoute) :=
  foldl
    (λ routes i,
       match dump !! i with
       | Some r => <[i := Some (ToProto r)]> routes
       | None => routes
       end)
    (replicate (length dump) None) (seq 0 (length dump)).

(** The loop shared by [DumpRIBIn] and [DumpRIBOut]: each route is
    converted and handed to [stream.Send]; the first error ends the call
    and is returned.  The result is the list of messages handed to
    [Send], the stream as it is left, and the error if any. *)
Fixpoint sendRoutes (dump : list Route) (stream : Stream)
    : list ProtoRoute * Stream * option Err :=
  match dump with
  | [] => ([], stream, None)
  | r :: dump' =>
      let x := ToProto r in
      match Send stream x with
      | (stream', Some err) => ([x], stream', Some err)
      | (stream', None) =>
          let '(sent, stream'', res) := sendRoutes dump' stream' in
          (x :: sent, stream'', res)
      end
  end.

(** [srvDumpRIBIn] stands for [s.srv.DumpRIBIn].  [*in.Peer] panics on a
    request without a peer: [None].  [uint16(in.Afi)] and
    [uint8(in.Safi)] keep the low 16 and 8 bits. *)
Definition DumpRIBIn (srvDumpRIBIn : IP → N → N → list Route)
    (req : DumpRIBRequest) (stream : Stream)
    : option (list ProtoRoute * Stream * option Err) :=
  match Peer req with
  | None => None
  | Some peer =>
      Some (sendRoutes
              (srvDumpRIBIn (IPFromProtoIP peer)
                 (Afi req mod 2 ^ 16) (Safi req mod 2 ^ 8))
              stream)
  end.

(** [srvDumpRIBOut] stands for [s.srv.DumpRIBOut]. *)
Definition DumpRIBOut (srvDumpRIBOut : IP → N → N → list Route)
    (req : DumpRIBRequest) (stream : Stream)
    : option (list ProtoRoute * Stream * option Err) :=
  match Peer req with
  | None => None
  | Some peer =>
      Some (sendRoutes
              (srvDumpRIBOut (IPFromProtoIP peer)
                 (Afi req mod 2 ^ 16) (Safi req mod 2 ^ 8))
              stream)
  end.

(** The stream after the messages [xs] were handed to [Send] one after
    the other. *)
Definition streamAfter (xs : list ProtoRoute) (stream : Stream) : Stream :=
  foldl (λ s x, (Send s x).1) stream xs.

End BGPAPIServer.

(** A stream that accepts [n] more messages and then fails with error
    [0], keeping what it accepted; used to run the dump on sample data. *)
Definition budgetSend (s : nat * list N) (x : N) : (nat * list N) * option N :=
  match s.1 with
  | O => (s, Some 0)
  | S n => ((n, s.2 ++ [x]), None)
  end.

(** * Properties *)

(** ** Range loops over the store

    A loop body that, visiting key [k] with value [e], changes the map
    at most at [k], and leaves there a value [g k e] that depends on the
    visited pair only, computes the key-wise image of the map under [g]
    whatever the order of the visits. *)

Section RangeLoop.
Context {A : Type}.
Variable f : N → A → gmap N A → gmap N A.
Variable g : N → A → option A.
Hypothesis f_here : ∀ k e acc, acc !! k = Some e → f k e acc !! k = g k e.
Hypothesis f_other : ∀ k e acc j, j ≠ k → f k e acc !! j = acc !! j.

Lemma map_fold_range_from (b m : gmap N A) :
  m ⊆ b →
  ∀ j, map_fold f b m !! j =
       match m !! j with Some e => g j e | None => b !! j end.
Proof.
  apply (map_fold_weak_ind
           (λ r m', m' ⊆ b →
              ∀ j, r !! j = match m' !! j with
                            | Some e => g j e
                            | None => b !! j
                            end)); clear m.
  - intros _ j. by rewrite lookup_empty.
  - intros i x m r Hi IH Hsub j.
    assert (Hm : m ⊆ b).
    { etrans; [|exact Hsub]. by apply insert_subseteq. }
    assert (Hb : b !! i = Some x).
    { eapply lookup_weaken; [|exact Hsub]. by rewrite lookup_insert_eq. }
    specialize (IH Hm).
    destruct (decide (j = i)) as [->|Hne].
    + rewrite lookup_insert_eq. apply f_here.
      by rewrite IH, Hi.
    + rewrite lookup_insert_ne by done. rewrite f_other by done. apply IH.
Qed.

Lemma map_fold_range_lookup (m : gmap N A) (j : N) :
  map_fold f m m !! j = m !! j ≫= g j.
Proof.
  rewrite map_fold_range_from by done. by destruct (m !! j).
Qed.
End RangeLoop.

(** ** The aging step *)

Lemma decrementRemainingLifetimes_lookup (l : lsdb) (k : N) :
  lsps (decrementRemainingLifetimes l) !! k = lsps l !! k ≫= age.
Proof.
  unfold decrementRemainingLifetimes; simpl.
  apply (map_fold_range_lookup _ (λ _, age)).
  - intros i e acc _. unfold age.
    destruct (_ <=? 1); [apply lookup_delete_eq | apply lookup_insert_eq].
  - intros i e acc j Hne.
    destruct (_ <=? 1); [by apply lookup_delete_ne | by apply lookup_insert_ne].
Qed.

(** ** C4 *)

(** C4: one aging step deletes exactly the entries whose remaining
    lifetime is at most 1 and subtracts exactly 1 from the lifetime of
    every other entry; LSPID, sequence number, checksum, payload, both
    flag sets, the absent keys and the rest of the LSDB are unchanged, and
    no surviving entry has lifetime 0. *)
Theorem decrementRemainingLifetimes_exact (l : lsdb) (k : N) :
  srv (decrementRemainingLifetimes l) = srv l ∧
  isL1 (decrementRemainingLifetimes l) = isL1 l ∧
  match lsps l !! k with
  | None => lsps (decrementRemainingLifetimes l) !! k = None
  | Some e =>
      if LSPDU.RemainingLifetime (lspdu e) <=? 1
      then lsps (decrementRemainingLifetimes l) !! k = None
      else
        lsps (decrementRemainingLifetimes l) !! k =
          Some (mkEntry
                  (LSPDU.mk (LSPDU.LSPID (lspdu e))
                     (LSPDU.SequenceNumber (lspdu e))
                     (LSPDU.RemainingLifetime (lspdu e) - 1)
                     (LSPDU.Checksum (lspdu e))
                     (LSPDU.TLVs (lspdu e)))
                  (srmFlags e) (ssnFlags e)) ∧
        1 ≤ LSPDU.RemainingLifetime (lspdu e) - 1
  end.
Proof.
  split; [done|]. split; [done|].
  rewrite decrementRemainingLifetimes_lookup.
  destruct (lsps l !! k) as [e|] eqn:Hk; simpl; [|done].
  unfold age. destruct (_ <=? 1) eqn:Hle; [done|].
  split; [done|]. apply N.leb_gt in Hle. lia.
Qed.

Example aging_purge :
  let l := processLSP ifA (lspZ 4 1) (processLSP ifA (lspX 5 1200) empty3) in
  lsps (decrementRemainingLifetimes l) !! 30 = None ∧
  (lspdu <$> lsps (decrementRemainingLifetimes l) !! 10) = Some (lspX 5 1199).
Proof. vm_compute. done. Qed.

(** ** processLSP *)

Lemma setSRM_foldl (e0 : lsdbEntry) (xs : list netIfa.t) :
  lspdu (foldl (λ e i, setSRM i e) e0 xs) = lspdu e0 ∧
  srmFlags (foldl (λ e i, setSRM i e) e0 xs) = list_to_set xs ∪ srmFlags e0 ∧
  ssnFlags (foldl (λ e i, setSRM i e) e0 xs) = ssnFlags e0.
Proof.
  revert e0. induction xs as [|x xs IH]; intros e0; simpl.
  - split; [done|]. split; [set_solver|done].
  - destruct (IH (setSRM x e0)) as (-> & -> & ->). simpl.
    split; [done|]. split; [set_solver|done].
Qed.

Lemma elem_of_getAllInterfacesExcept (s : Server.t) (ifa i : netIfa.t) :
  i ∈ Server.getAllInterfacesExcept s ifa ↔
  i ∈ Server.getAllInterfaces s ∧ i ≠ ifa.
Proof.
  unfold Server.getAllInterfacesExcept, Server.getAllInterfaces.
  rewrite list_elem_of_filter. tauto.
Qed.

(** The entry [processNewerLSPDU] stores. *)
Lemma processNewerLSPDU_lookup (ifa : netIfa.t) (p : LSPDU.t) (l : lsdb) :
  lsps (processNewerLSPDU ifa p l) !! LSPDU.LSPID p =
    Some (mkEntry p
            (list_to_set (Server.getAllInterfacesExcept (srv l) ifa) ∖ {[ifa]})
            {[ifa]}).
Proof.
  unfold processNewerLSPDU; simpl. rewrite lookup_insert_eq.
  destruct (setSRM_foldl (newLSDBEntry p)
              (Server.getAllInterfacesExcept (srv l) ifa)) as (Hp & Hsrm & Hssn).
  unfold setSSN, clearSRMFlag; simpl. rewrite Hp, Hsrm, Hssn. simpl.
  f_equal. f_equal; set_solver.
Qed.

Lemma processLSP_other (ifa : netIfa.t) (p : LSPDU.t) (l : lsdb) (k : N) :
  k ≠ LSPDU.LSPID p → lsps (processLSP ifa p l) !! k = lsps l !! k.
Proof.
  intros Hk. unfold processLSP, processNewerLSPDU.
  repeat case_match; simpl; by rewrite lookup_insert_ne.
Qed.

(** C1: when the store has no entry for the LSPDU's id, or the stored
    sequence number is strictly smaller than the received one, the store
    afterwards holds at that id a fresh entry whose LSPDU is the received
    one, with SRM set on every managed interface other than [ifa], SRM
    clear on [ifa] and SSN set on [ifa] (and on no other interface). *)
Theorem processLSP_install_newer (ifa : netIfa.t) (p : LSPDU.t) (l : lsdb) :
  match lsps l !! LSPDU.LSPID p with
  | None => True
  | Some stored => LSPDU.SequenceNumber (lspdu stored) < LSPDU.SequenceNumber p
  end →
  ∃ e', lsps (processLSP ifa p l) !! LSPDU.LSPID p = Some e' ∧
        lspdu e' = p ∧
        (∀ i, i ∈ Server.getAllInterfaces (srv l) → i ≠ ifa → getSRM i e' = true) ∧
        getSRM ifa e' = false ∧
        getSSN ifa e' = true ∧
        ssnFlags e' = {[ifa]} ∧
        (∀ i, getSRM i e' = true → i ∈ Server.getAllInterfaces (srv l) ∧ i ≠ ifa).
Proof.
  intros Hnew.
  assert (Hins : processLSP ifa p l = processNewerLSPDU ifa p l).
  { unfold processLSP. destruct (lsps l !! LSPDU.LSPID p) as [stored|]; [|done].
    apply N.ltb_lt in Hnew. by rewrite Hnew. }
  rewrite Hins, processNewerLSPDU_lookup. eexists; split; [done|].
  unfold getSRM, getSSN; simpl. split; [done|].
  split; [|split; [|split; [|split; [done|]]]].
  - intros i Hi Hne. apply bool_decide_eq_true.
    apply elem_of_difference; split; [|set_solver].
    apply elem_of_list_to_set, elem_of_getAllInterfacesExcept. done.
  - apply bool_decide_eq_false. set_solver.
  - apply bool_decide_eq_true. set_solver.
  - intros i Hi%bool_decide_eq_true.
    apply elem_of_difference in Hi as [Hi _].
    by apply elem_of_list_to_set, elem_of_getAllInterfacesExcept in Hi.
Qed.

Lemma processLSP_install_newer_witness :
  match lsps empty3 !! LSPDU.LSPID (lspX 5 1200) with
  | None => True
  | Some stored =>
      LSPDU.SequenceNumber (lspdu stored) < LSPDU.SequenceNumber (lspX 5 1200)
  end ∧
  ∃ e', lsps (processLSP ifA (lspX 5 1200) empty3) !! LSPDU.LSPID (lspX 5 1200)
          = Some e' ∧
        lspdu e' = lspX 5 1200 ∧
        (∀ i, i ∈ Server.getAllInterfaces (srv empty3) → i ≠ ifA →
              getSRM i e' = true) ∧
        getSRM ifA e' = false ∧
        getSSN ifA e' = true ∧
        ssnFlags e' = {[ifA]} ∧
        (∀ i, getSRM i e' = true →
              i ∈ Server.getAllInterfaces (srv empty3) ∧ i ≠ ifA).
Proof.
  split; [vm_compute; exact I|].
  apply (processLSP_install_newer ifA (lspX 5 1200) empty3).
  vm_compute; exact I.
Defined.

(** Scenario "flood on new": on the empty store with interfaces A, B, C,
    an LSPDU with sequence number 5 received on A is stored with SRM on
    B and C only and SSN on A. *)
Example flood_on_new :
  let l := processLSP ifA (lspX 5 1200) empty3 in
  (lspdu <$> lsps l !! 10) = Some (lspX 5 1200) ∧
  ((λ e, (getSRM ifA e, getSRM ifB e, getSRM ifC e, getSSN ifA e)) <$> lsps l !! 10)
    = Some (false, true, true, true).
Proof. vm_compute. done. Qed.

(** C2: after [processLSP] the store has an entry for the LSPDU's id and
    its sequence number is the maximum of the received one and the one
    stored before (the received one when there was no entry); when the
    received number is lower, the stored number is unchanged. *)
Theorem processLSP_sequence_number (ifa : netIfa.t) (p : LSPDU.t) (l : lsdb) :
  ∃ e', lsps (processLSP ifa p l) !! LSPDU.LSPID p = Some e' ∧
        LSPDU.SequenceNumber (lspdu e') =
          N.max (from_option (λ e, LSPDU.SequenceNumber (lspdu e))
                   (LSPDU.SequenceNumber p) (lsps l !! LSPDU.LSPID p))
                (LSPDU.SequenceNumber p) ∧
        match lsps l !! LSPDU.LSPID p with
        | Some e =>
            if LSPDU.SequenceNumber p <? LSPDU.SequenceNumber (lspdu e)
            then LSPDU.SequenceNumber (lspdu e') = LSPDU.SequenceNumber (lspdu e)
            else True
        | None => True
        end.
Proof.
  unfold processLSP.
  destruct (lsps l !! LSPDU.LSPID p) as [e|] eqn:Hk.
  - destruct (_ <? LSPDU.SequenceNumber p) eqn:Hlt.
    + rewrite processNewerLSPDU_lookup. eexists; split; [done|]. simpl.
      apply N.ltb_lt in Hlt. split; [lia|].
      destruct (LSPDU.SequenceNumber p <? _) eqn:Hgt; [|done].
      apply N.ltb_lt in Hgt. lia.
    + apply N.ltb_ge in Hlt.
      destruct (LSPDU.SequenceNumber p =? _) eqn:Heq; simpl;
        rewrite lookup_insert_eq; (eexists; split; [done|]); simpl;
        (split; [lia|]); by destruct (_ <? _).
  - rewrite processNewerLSPDU_lookup. eexists; split; [done|]. simpl.
    split; [lia|done].
Qed.

(** C3: when the store has an entry for the LSPDU's id, an equal
    sequence number leaves that entry with SRM clear and SSN set on
    [ifa], and a strictly lower received sequence number leaves it with
    SRM set and SSN clear on [ifa]; in both cases the stored LSPDU stays. *)
Theorem processLSP_same_or_older
    (ifa : netIfa.t) (p : LSPDU.t) (l : lsdb) (stored : lsdbEntry) :
  lsps l !! LSPDU.LSPID p = Some stored →
  ∃ e', lsps (processLSP ifa p l) !! LSPDU.LSPID p = Some e' ∧
        (LSPDU.SequenceNumber p = LSPDU.SequenceNumber (lspdu stored) →
           lspdu e' = lspdu stored ∧
           getSRM ifa e' = false ∧ getSSN ifa e' = true) ∧
        (LSPDU.SequenceNumber p < LSPDU.SequenceNumber (lspdu stored) →
           lspdu e' = lspdu stored ∧
           getSRM ifa e' = true ∧ getSSN ifa e' = false).
Proof.
  intros Hk. unfold processLSP. rewrite Hk.
  destruct (_ <? LSPDU.SequenceNumber p) eqn:Hlt.
  - apply N.ltb_lt in Hlt. rewrite processNewerLSPDU_lookup.
    eexists; split; [done|]. split; intros; lia.
  - apply N.ltb_ge in Hlt.
    destruct (LSPDU.SequenceNumber p =? _) eqn:Heq; simpl;
      rewrite lookup_insert_eq; (eexists; split; [done|]).
    + split; [|apply N.eqb_eq in Heq; lia].
      intros _. split; [done|]. unfold getSRM, getSSN; simpl.
      split; [apply bool_decide_eq_false | apply bool_decide_eq_true]; set_solver.
    + apply N.eqb_neq in Heq. split; [intros; congruence|].
      intros _. split; [done|]. unfold getSRM, getSSN; simpl.
      split; [apply bool_decide_eq_true | apply bool_decide_eq_false]; set_solver.
Qed.

Lemma processLSP_same_or_older_witness :
  lsps storeX7 !! LSPDU.LSPID (lspX 3 900) = Some entryX7 ∧
  ∃ e', lsps (processLSP ifA (lspX 3 900) storeX7) !! LSPDU.LSPID (lspX 3 900)
          = Some e' ∧
        (LSPDU.SequenceNumber (lspX 3 900) = LSPDU.SequenceNumber (lspdu entryX7) →
           lspdu e' = lspdu entryX7 ∧
           getSRM ifA e' = false ∧ getSSN ifA e' = true) ∧
        (LSPDU.SequenceNumber (lspX 3 900) < LSPDU.SequenceNumber (lspdu entryX7) →
           lspdu e' = lspdu entryX7 ∧
           getSRM ifA e' = true ∧ getSSN ifA e' = false).
Proof.
  split; [vm_compute; reflexivity|].
  apply (processLSP_same_or_older ifA (lspX 3 900) storeX7 entryX7).
  vm_compute; reflexivity.
Defined.

(** Scenario "older reflood": X stored at 7, X at 3 received on A. *)
Example older_reflood :
  (λ e, (LSPDU.SequenceNumber (lspdu e), getSRM ifA e, getSSN ifA e))
    <$> lsps (processLSP ifA (lspX 3 900) storeX7) !! 10
  = Some (7, true, false).
Proof. vm_compute. done. Qed.

Example same_sequence :
  (λ e, (LSPDU.SequenceNumber (lspdu e), getSRM ifA e, getSSN ifA e))
    <$> lsps (processLSP ifA (lspX 7 1) storeX7) !! 10
  = Some (7, false, true).
Proof. vm_compute. done. Qed.

(** ** processPSNP *)

Lemma clearSRMFlag_idem (ifa : netIfa.t) (e : lsdbEntry) :
  clearSRMFlag ifa (clearSRMFlag ifa e) = clearSRMFlag ifa e.
Proof. unfold clearSRMFlag; simpl. f_equal. set_solver. Qed.

Lemma processPSNP_step_lookup
    (from : netIfa.t) (m : gmap N lsdbEntry) (e : LSPEntry.t) (k : N) :
  match m !! LSPEntry.LSPID e with
  | None => m
  | Some _ => alter (clearSRMFlag from) (LSPEntry.LSPID e) m
  end !! k
  = if LSPEntry.LSPID e =? k then clearSRMFlag from <$> m !! k else m !! k.
Proof.
  destruct (N.eqb_spec (LSPEntry.LSPID e) k) as [->|Hne].
  - destruct (m !! k) eqn:Hk; [|by rewrite Hk].
    by rewrite lookup_alter_eq, Hk.
  - destruct (m !! LSPEntry.LSPID e); [|done]. by rewrite lookup_alter_ne.
Qed.

Lemma processPSNP_lookup (from : netIfa.t) (psnp : PSNP.t) (l : lsdb) (k : N) :
  lsps (processPSNP from psnp l) !! k =
    if listed (PSNP.GetLSPEntries psnp) k
    then clearSRMFlag from <$> lsps l !! k
    else lsps l !! k.
Proof.
  unfold processPSNP; simpl.
  generalize (PSNP.GetLSPEntries psnp) (lsps l). clear.
  intros es. induction es as [|e es IH]; intros m; [done|].
  simpl. rewrite IH, !processPSNP_step_lookup.
  destruct (LSPEntry.LSPID e =? k); simpl.
  - destruct (listed es k); [|done].
    rewrite <- option_fmap_compose. apply option_fmap_ext.
    intros x. apply clearSRMFlag_idem.
  - done.
Qed.

(** C8: [processPSNP] clears SRM on [from] for every listed LSPID the
    store holds and touches nothing else: an unlisted or unknown LSPID
    keeps its lookup, no key is added or removed, the LSPDUs and SSN
    flags of listed entries stay, and the function is total. *)
Theorem processPSNP_exact (from : netIfa.t) (psnp : PSNP.t) (l : lsdb) (k : N) :
  srv (processPSNP from psnp l) = srv l ∧
  isL1 (processPSNP from psnp l) = isL1 l ∧
  dom (lsps (processPSNP from psnp l)) = dom (lsps l) ∧
  match lsps l !! k with
  | None => lsps (processPSNP from psnp l) !! k = None
  | Some e =>
      if listed (PSNP.GetLSPEntries psnp) k
      then lsps (processPSNP from psnp l) !! k = Some (clearSRMFlag from e) ∧
           getSRM from (clearSRMFlag from e) = false ∧
           lspdu (clearSRMFlag from e) = lspdu e ∧
           ssnFlags (clearSRMFlag from e) = ssnFlags e ∧
           (∀ i, i ≠ from → getSRM i (clearSRMFlag from e) = getSRM i e)
      else lsps (processPSNP from psnp l) !! k = Some e
  end.
Proof.
  split; [done|]. split; [done|]. split.
  - apply set_eq. intros j. rewrite !elem_of_dom, processPSNP_lookup.
    destruct (listed _ j); [|done]. by rewrite fmap_is_Some.
  - rewrite processPSNP_lookup.
    destruct (lsps l !! k) as [e|]; simpl; [|by destruct (listed _ k)].
    destruct (listed _ k); [|done].
    split; [done|]. unfold getSRM; simpl.
    split; [apply bool_decide_eq_false; set_solver|].
    split; [done|]. split; [done|].
    intros i Hi. apply bool_decide_ext. set_solver.
Qed.

(** Scenario "ack clears SRM": after "flood on new", a PSNP from B that
    lists X clears SRM on B; a PSNP that lists an unknown id changes
    nothing. *)
Example ack_clears_srm :
  let l := processLSP ifA (lspX 5 1200) empty3 in
  ((λ e, (getSRM ifA e, getSRM ifB e, getSRM ifC e, getSSN ifA e))
     <$> lsps (processPSNP ifB (PSNP.mk 9 [ToLSPEntry (lspX 5 1200)]) l) !! 10)
    = Some (false, false, true, true) ∧
  processPSNP ifB (PSNP.mk 9 [ToLSPEntry (lspZ 1 100)]) l = l.
Proof. vm_compute. done. Qed.

(** ** processCSNP *)

Section CSNP_properties.
Variables sameAs newer older : lsdbEntry → LSPEntry.t → bool.

Local Abbreviation processEntry := (processCSNPLSPEntry sameAs newer older).
Local Abbreviation processEntries := (processCSNPEntries sameAs newer older).
Local Abbreviation processCSNP' := (processCSNP sameAs newer older).

Lemma processCSNPLSPEntryUnknown_lookup
    (e : LSPEntry.t) (from : netIfa.t) (l : lsdb) :
  lsps (processCSNPLSPEntryUnknown e from l) !! LSPEntry.LSPID e =
    Some (setSSN from (newEmptyLSDBEntry e)).
Proof.
  unfold processCSNPLSPEntryUnknown; simpl.
  by rewrite lookup_alter_eq, lookup_insert_eq.
Qed.

Lemma processCSNPLSPEntry_other
    (e : LSPEntry.t) (from : netIfa.t) (l : lsdb) (k : N) :
  LSPEntry.LSPID e ≠ k →
  lsps (processEntry e from l) !! k = lsps l !! k.
Proof.
  intros Hne. unfold processCSNPLSPEntry, processCSNPLSPEntryUnknown, _getLSPDU.
  repeat case_match; simpl;
    rewrite ?lookup_alter_ne, ?lookup_insert_ne by done; done.
Qed.

Lemma processCSNPEntries_snoc
    (from : netIfa.t) (pre : list LSPEntry.t) (e : LSPEntry.t) (l : lsdb) :
  processEntries from (pre ++ [e]) l = processEntry e from (processEntries from pre l).
Proof. unfold processCSNPEntries. by rewrite foldl_app. Qed.

Lemma processCSNPEntries_unlisted
    (from : netIfa.t) (es : list LSPEntry.t) (l : lsdb) (k : N) :
  listed es k = false →
  lsps (processEntries from es l) !! k = lsps l !! k.
Proof.
  revert l. induction es as [|e es IH]; intros l; [done|].
  simpl. intros [He Hes]%orb_false_iff.
  unfold processCSNPEntries in *. simpl. rewrite IH by done.
  apply processCSNPLSPEntry_other. by apply N.eqb_neq.
Qed.

Lemma processCSNPGaps_lookup
    (from : netIfa.t) (csnp : CSNP.t) (l : lsdb) (k : N) :
  lsps (processCSNPGaps from csnp l) !! k =
    (λ e, if isGap csnp k e then setSRM from e else e) <$> lsps l !! k.
Proof.
  unfold processCSNPGaps; simpl.
  rewrite (map_fold_range_lookup _
             (λ j e, Some (if isGap csnp j e then setSRM from e else e))).
  - by destruct (lsps l !! k).
  - intros j e acc Hj. unfold isGap.
    rewrite !(N.ltb_antisym _ 0).
    destruct (_ <=? 0), (_ <=? 0), (CSNP.RangeContainsLSPID csnp j),
      (CSNP.ContainsLSPEntry csnp j); simpl;
      by rewrite ?lookup_insert_eq.
  - intros j e acc i Hne.
    repeat case_match; by rewrite ?lookup_insert_ne.
Qed.

(** C6: after the per-entry loop of [processCSNP], the second loop sets
    SRM on [from] for exactly the stored entries whose LSPID is inside
    the CSNP's range, is not listed in the CSNP, and whose remaining
    lifetime and sequence number are both positive; every other entry,
    and every absent key, comes out of the second loop as it went in.
    An unlisted LSPID is moreover not touched by the per-entry loop. *)
Theorem processCSNP_gap_scan
    (from : netIfa.t) (csnp : CSNP.t) (l : lsdb) (k : N) :
  match lsps (processEntries from (CSNP.GetLSPEntries csnp) l) !! k with
  | None => lsps (processCSNP' from csnp l) !! k = None
  | Some e =>
      if CSNP.RangeContainsLSPID csnp k
         && negb (CSNP.ContainsLSPEntry csnp k)
         && (0 <? LSPDU.RemainingLifetime (lspdu e))
         && (0 <? LSPDU.SequenceNumber (lspdu e))
      then lsps (processCSNP' from csnp l) !! k = Some (setSRM from e) ∧
           getSRM from (setSRM from e) = true
      else lsps (processCSNP' from csnp l) !! k = Some e
  end ∧
  if CSNP.ContainsLSPEntry csnp k then True
  else lsps (processEntries from (CSNP.GetLSPEntries csnp) l) !! k = lsps l !! k.
Proof.
  split.
  - unfold processCSNP. rewrite processCSNPGaps_lookup.
    destruct (lsps _ !! k) as [e|]; simpl; [|done].
    fold (isGap csnp k e). destruct (isGap csnp k e); [|done].
    split; [done|]. unfold getSRM; simpl. apply bool_decide_eq_true. set_solver.
  - destruct (CSNP.ContainsLSPEntry csnp k) eqn:Hl; [done|].
    by apply processCSNPEntries_unlisted.
Qed.

(** C7: when the per-entry loop of [processCSNP] reaches a listed
    LSPEntry [e] whose LSPID the store does not hold at that moment,
    processing [e] inserts under that LSPID the empty entry made from
    [e], with SSN set on [from] and no other flag set, and leaves every
    other key alone. *)
Theorem processCSNP_unknown_entry
    (from : netIfa.t) (csnp : CSNP.t) (l : lsdb)
    (pre post : list LSPEntry.t) (e : LSPEntry.t) :
  CSNP.GetLSPEntries csnp = pre ++ e :: post →
  lsps (processEntries from pre l) !! LSPEntry.LSPID e = None →
  lsps (processEntries from (pre ++ [e]) l) !! LSPEntry.LSPID e =
    Some (setSSN from (newEmptyLSDBEntry e)) ∧
  LSPDU.LSPID (lspdu (setSSN from (newEmptyLSDBEntry e))) = LSPEntry.LSPID e ∧
  getSSN from (setSSN from (newEmptyLSDBEntry e)) = true ∧
  ssnFlags (setSSN from (newEmptyLSDBEntry e)) = {[from]} ∧
  srmFlags (setSSN from (newEmptyLSDBEntry e)) = ∅ ∧
  LSPDU.TLVs (lspdu (setSSN from (newEmptyLSDBEntry e))) = [] ∧
  ∀ k, k ≠ LSPEntry.LSPID e →
       lsps (processEntries from (pre ++ [e]) l) !! k =
       lsps (processEntries from pre l) !! k.
Proof.
  intros _ Hnone. rewrite processCSNPEntries_snoc.
  split.
  { unfold processCSNPLSPEntry, _getLSPDU. rewrite Hnone.
    apply processCSNPLSPEntryUnknown_lookup. }
  split; [done|]. split.
  { unfold getSSN; simpl. apply bool_decide_eq_true. set_solver. }
  split; [simpl; set_solver|]. split; [done|]. split; [done|].
  intros k Hk. by apply processCSNPLSPEntry_other.
Qed.

(** When moreover [e] is the only LSPEntry of the CSNP with its LSPID,
    the entry made for it is what the store holds when [processCSNP]
    returns. *)
Lemma processCSNP_unknown_final
    (from : netIfa.t) (csnp : CSNP.t) (l : lsdb)
    (pre post : list LSPEntry.t) (e : LSPEntry.t) :
  CSNP.GetLSPEntries csnp = pre ++ e :: post →
  lsps l !! LSPEntry.LSPID e = None →
  listed pre (LSPEntry.LSPID e) = false →
  listed post (LSPEntry.LSPID e) = false →
  lsps (processCSNP' from csnp l) !! LSPEntry.LSPID e =
    Some (setSSN from (newEmptyLSDBEntry e)).
Proof.
  intros Hsplit Hnone Hpre Hpost.
  assert (Hpre' : lsps (processEntries from pre l) !! LSPEntry.LSPID e = None).
  { by rewrite processCSNPEntries_unlisted. }
  assert (Hmid : lsps (processEntries from (CSNP.GetLSPEntries csnp) l)
                   !! LSPEntry.LSPID e = Some (setSSN from (newEmptyLSDBEntry e))).
  { rewrite Hsplit. unfold processCSNPEntries.
    rewrite foldl_app. simpl.
    fold (processEntries from pre l).
    fold (processEntries from post (processEntry e from (processEntries from pre l))).
    rewrite processCSNPEntries_unlisted by done.
    unfold processCSNPLSPEntry, _getLSPDU. rewrite Hpre'.
    apply processCSNPLSPEntryUnknown_lookup. }
  unfold processCSNP. rewrite processCSNPGaps_lookup, Hmid. simpl.
  assert (Hl : CSNP.ContainsLSPEntry csnp (LSPEntry.LSPID e) = true).
  { unfold CSNP.ContainsLSPEntry. change (CSNP.LSPEntries csnp) with
      (CSNP.GetLSPEntries csnp). rewrite Hsplit, existsb_app. simpl.
    by rewrite N.eqb_refl, orb_true_r. }
  unfold isGap. rewrite Hl. by rewrite andb_false_r.
Qed.

End CSNP_properties.

Lemma processCSNP_unknown_entry_witness :
  CSNP.GetLSPEntries csnpY = [] ++ entryY :: [] ∧
  lsps (processCSNPEntries sameAsInLSPEntry newerInDatabase olderInDatabase
          ifA [] storeX4) !! LSPEntry.LSPID entryY = None ∧
  (lsps (processCSNPEntries sameAsInLSPEntry newerInDatabase olderInDatabase
           ifA ([] ++ [entryY]) storeX4) !! LSPEntry.LSPID entryY =
     Some (setSSN ifA (newEmptyLSDBEntry entryY)) ∧
   LSPDU.LSPID (lspdu (setSSN ifA (newEmptyLSDBEntry entryY))) = LSPEntry.LSPID entryY ∧
   getSSN ifA (setSSN ifA (newEmptyLSDBEntry entryY)) = true ∧
   ssnFlags (setSSN ifA (newEmptyLSDBEntry entryY)) = {[ifA]} ∧
   srmFlags (setSSN ifA (newEmptyLSDBEntry entryY)) = ∅ ∧
   LSPDU.TLVs (lspdu (setSSN ifA (newEmptyLSDBEntry entryY))) = [] ∧
   ∀ k, k ≠ LSPEntry.LSPID entryY →
        lsps (processCSNPEntries sameAsInLSPEntry newerInDatabase olderInDatabase
                ifA ([] ++ [entryY]) storeX4) !! k =
        lsps (processCSNPEntries sameAsInLSPEntry newerInDatabase olderInDatabase
                ifA [] storeX4) !! k).
Proof.
  split; [reflexivity|]. split; [vm_compute; reflexivity|].
  apply (processCSNP_unknown_entry sameAsInLSPEntry newerInDatabase olderInDatabase
           ifA csnpY storeX4 [] [] entryY).
  - reflexivity.
  - vm_compute; reflexivity.
Defined.

(** Scenarios "CSNP gap" and "CSNP unknown": X is in range and not
    listed, so SRM is set on A for X; Y is listed and unknown, so an
    empty entry with SSN on A is made for it. *)
Example csnp_gap_and_unknown :
  let l := processCSNP sameAsInLSPEntry newerInDatabase olderInDatabase
             ifA csnpY storeX4 in
  ((λ e, (getSRM ifA e, LSPDU.SequenceNumber (lspdu e))) <$> lsps storeX4 !! 10)
    = Some (false, 4) ∧
  ((λ e, (getSRM ifA e, LSPDU.SequenceNumber (lspdu e))) <$> lsps l !! 10)
    = Some (true, 4) ∧
  ((λ e, (getSSN ifA e, getSRM ifA e, LSPDU.SequenceNumber (lspdu e)))
     <$> lsps l !! 20) = Some (true, false, 2).
Proof. vm_compute. done. Qed.

(** ** Traces of the transmit routines *)

Lemma trace_bind {A B} (m : Exec A) (k : A → Exec B) :
  trace (bind m k) =
    match outcome m with
    | Some a => trace m ++ trace (k a)
    | None => trace m
    end.
Proof.
  destruct m as [t [a|]]; simpl; [|done].
  unfold trace; simpl. by destruct (k a).
Qed.

Lemma outcome_bind {A B} (m : Exec A) (k : A → Exec B) :
  outcome (bind m k) = outcome m ≫= (λ a, outcome (k a)).
Proof.
  destruct m as [t [a|]]; simpl; [|done].
  unfold outcome; simpl. by destruct (k a).
Qed.

(** Whatever is true of every event a loop body can write is true of
    every event of the loop, also when some iteration panics. *)
Lemma forEach_trace_Forall {A} (P : event → Prop) (xs : list A) (body : A → Exec unit) :
  (∀ x, x ∈ xs → Forall P (trace (body x))) →
  Forall P (trace (forEach xs body)).
Proof.
  induction xs as [|x xs IH]; intros Hbody; simpl; [constructor|].
  rewrite trace_bind.
  assert (Hx : Forall P (trace (body x))) by (apply Hbody; left).
  destruct (outcome (body x)); [|done].
  apply Forall_app; split; [done|].
  apply IH. intros y Hy. apply Hbody. by right.
Qed.

(** A loop none of whose iterations panics writes the traces of its
    iterations one after the other. *)
Lemma forEach_trace_ok {A} (xs : list A) (body : A → Exec unit) :
  (∀ x, x ∈ xs → outcome (body x) = Some tt) →
  outcome (forEach xs body) = Some tt ∧
  trace (forEach xs body) = xs ≫= (λ x, trace (body x)).
Proof.
  induction xs as [|x xs IH]; intros Hbody; simpl; [done|].
  rewrite trace_bind, outcome_bind.
  rewrite (Hbody x) by left. simpl.
  destruct IH as [-> ->]; [|done].
  intros y Hy. apply Hbody. by right.
Qed.

Lemma forEach_emit {A} (xs : list A) (ev : A → event) :
  outcome (forEach xs (λ x, emit (ev x))) = Some tt ∧
  trace (forEach xs (λ x, emit (ev x))) = ev <$> xs.
Proof.
  destruct (forEach_trace_ok xs (λ x, emit (ev x))) as [Hout Htr]; [done|].
  split; [done|]. rewrite Htr. clear.
  induction xs as [|x xs IH]; [done|].
  change ((x :: xs) ≫= λ x0, trace (emit (ev x0)))
    with (ev x :: (xs ≫= λ x0, trace (emit (ev x0)))).
  by rewrite IH.
Qed.

(** C9: no event written by the LSPDU-transmit routine or by the
    PSNP-transmit routine names a passive interface, whatever flags the
    store carries, whatever the PSNP packer returns, and also when
    [sendPSNPss] panics for want of a NET. *)
Theorem passive_interfaces_never_sent
    (NewPSNPs : N → list LSPEntry.t → N → list PSNP.t) (l : lsdb) :
  Forall (λ ev, netIfa.Passive (netIfa.cfg (event_ifa ev)) = false)
    (trace (sendLSPDUs l)) ∧
  Forall (λ ev, netIfa.Passive (netIfa.cfg (event_ifa ev)) = false)
    (trace (sendPSNPss NewPSNPs l)).
Proof.
  split.
  - unfold sendLSPDUs. apply forEach_trace_Forall. intros kv _.
    apply forEach_trace_Forall. intros ifa _.
    destruct (netIfa.Passive (netIfa.cfg ifa)) eqn:Hp; [constructor|].
    by repeat constructor.
  - unfold sendPSNPss.
    destruct (Server.nets (srv l) !! 0%nat) as [srcID|]; [|constructor].
    rewrite trace_bind.
    match goal with
    | |- context [outcome ?m] =>
        assert (Hloop : Forall
                  (λ ev, netIfa.Passive (netIfa.cfg (event_ifa ev)) = false)
                  (trace m))
    end.
    { apply forEach_trace_Forall. intros ifa _.
      destruct (netIfa.Passive (netIfa.cfg ifa)) eqn:Hp; [constructor|].
      apply forEach_trace_Forall. intros psnp _. by repeat constructor. }
    destruct (outcome _); [|done].
    apply Forall_app; split; [done|constructor].
Qed.

(** C10: with a NET configured, the CSNP-transmit routine returns, and
    its trace is, interface by interface in manager order, the CSNPs
    built for the interface, for the interfaces with at least one up L2
    neighbour and for no other; the Passive setting does not occur in
    this description, so a passive interface with an up L2 neighbour is
    sent every CSNP built for it. *)
Theorem sendCSNPss_ignores_passive
    (NewCSNPs : N → list LSPEntry.t → N → list CSNP.t) (l : lsdb) (systemID : N) :
  Server.nets (srv l) !! 0%nat = Some systemID →
  outcome (sendCSNPss NewCSNPs l) = Some tt ∧
  trace (sendCSNPss NewCSNPs l) =
    (Server.getAllInterfaces (srv l) ≫= λ ifa,
       if (length (netIfa.getNeighborsUp ifa) <? 1)%nat then []
       else (λ c, sendCSNP ifa c (level l))
              <$> NewCSNPs systemID (getLSPEntries l) (netIfa.GetMTU ifa)) ∧
  (∀ ifa c,
     sendCSNP ifa c (level l) ∈ trace (sendCSNPss NewCSNPs l) ↔
     ifa ∈ Server.getAllInterfaces (srv l) ∧
     (1 ≤ length (netIfa.getNeighborsUp ifa))%nat ∧
     c ∈ NewCSNPs systemID (getLSPEntries l) (netIfa.GetMTU ifa)) ∧
  (∀ ifa c,
     ifa ∈ Server.getAllInterfaces (srv l) →
     netIfa.Passive (netIfa.cfg ifa) = true →
     (1 ≤ length (netIfa.getNeighborsUp ifa))%nat →
     c ∈ NewCSNPs systemID (getLSPEntries l) (netIfa.GetMTU ifa) →
     sendCSNP ifa c (level l) ∈ trace (sendCSNPss NewCSNPs l)).
Proof.
  intros Hnet.
  assert (Hbody : ∀ ifa,
    outcome (sendCSNPs NewCSNPs l ifa) = Some tt ∧
    trace (sendCSNPs NewCSNPs l ifa) =
      (λ c, sendCSNP ifa c (level l))
        <$> NewCSNPs systemID (getLSPEntries l) (netIfa.GetMTU ifa)).
  { intros ifa. unfold sendCSNPs, getCSNPs. rewrite Hnet.
    rewrite trace_bind, outcome_bind. simpl.
    by destruct (forEach_emit
                   (NewCSNPs systemID (getLSPEntries l) (netIfa.GetMTU ifa))
                   (λ c, sendCSNP ifa c (level l))) as [-> ->]. }
  destruct (forEach_trace_ok (Server.getAllInterfaces (srv l))
              (λ ifa, if (length (netIfa.getNeighborsUp ifa) <? 1)%nat
                      then ret tt else sendCSNPs NewCSNPs l ifa)) as [Hout Htr].
  { intros ifa _. destruct (_ <? _)%nat; [done|]. apply Hbody. }
  assert (Htrace : trace (sendCSNPss NewCSNPs l) =
    (Server.getAllInterfaces (srv l) ≫= λ ifa,
       if (length (netIfa.getNeighborsUp ifa) <? 1)%nat then []
       else (λ c, sendCSNP ifa c (level l))
              <$> NewCSNPs systemID (getLSPEntries l) (netIfa.GetMTU ifa))).
  { unfold sendCSNPss. rewrite Htr.
    apply list_bind_ext; [|done]. intros ifa.
    destruct (_ <? _)%nat; [done|]. apply Hbody. }
  assert (Hmem : ∀ ifa c,
     sendCSNP ifa c (level l) ∈ trace (sendCSNPss NewCSNPs l) ↔
     ifa ∈ Server.getAllInterfaces (srv l) ∧
     (1 ≤ length (netIfa.getNeighborsUp ifa))%nat ∧
     c ∈ NewCSNPs systemID (getLSPEntries l) (netIfa.GetMTU ifa)).
  { intros ifa c. rewrite Htrace, list_elem_of_bind. split.
    - intros (i & Hev & Hi).
      destruct (Nat.ltb_spec (length (netIfa.getNeighborsUp i)) 1) as [Hlt|Hge].
      + by apply elem_of_nil in Hev.
      + apply list_elem_of_fmap in Hev as (c' & Heq & Hc').
        injection Heq as -> ->. done.
    - intros (Hi & Hup & Hc). exists ifa. split; [|done].
      destruct (Nat.ltb_spec (length (netIfa.getNeighborsUp ifa)) 1) as [Hlt|Hge];
        [lia|].
      apply list_elem_of_fmap. by exists c. }
  split; [exact Hout|]. split; [exact Htrace|]. split; [exact Hmem|].
  intros ifa c Hi _ Hup Hc. apply Hmem. done.
Qed.

Lemma sendCSNPss_ignores_passive_witness :
  Server.nets (srv storeP) !! 0%nat = Some 7 ∧
  (outcome (sendCSNPss NewCSNPs storeP) = Some tt ∧
   trace (sendCSNPss NewCSNPs storeP) =
     (Server.getAllInterfaces (srv storeP) ≫= λ ifa,
        if (length (netIfa.getNeighborsUp ifa) <? 1)%nat then []
        else (λ c, sendCSNP ifa c (level storeP))
               <$> NewCSNPs 7 (getLSPEntries storeP) (netIfa.GetMTU ifa)) ∧
   (∀ ifa c,
      sendCSNP ifa c (level storeP) ∈ trace (sendCSNPss NewCSNPs storeP) ↔
      ifa ∈ Server.getAllInterfaces (srv storeP) ∧
      (1 ≤ length (netIfa.getNeighborsUp ifa))%nat ∧
      c ∈ NewCSNPs 7 (getLSPEntries storeP) (netIfa.GetMTU ifa)) ∧
   (∀ ifa c,
      ifa ∈ Server.getAllInterfaces (srv storeP) →
      netIfa.Passive (netIfa.cfg ifa) = true →
      (1 ≤ length (netIfa.getNeighborsUp ifa))%nat →
      c ∈ NewCSNPs 7 (getLSPEntries storeP) (netIfa.GetMTU ifa) →
      sendCSNP ifa c (level storeP) ∈ trace (sendCSNPss NewCSNPs storeP))).
Proof.
  split; [reflexivity|].
  apply (sendCSNPss_ignores_passive NewCSNPs storeP 7). reflexivity.
Defined.

(** C10 as stated fails without a NET: on [storeNoNet] the managed
    interface A has an up L2 neighbour and a CSNP would be built for the
    store, but [getCSNPs] panics on [l.srv.nets[0]] and no CSNP is sent
    on A or on any interface. *)
Lemma sendCSNPss_sends_nothing_without_NET :
  ifA ∈ Server.getAllInterfaces (srv storeNoNet) ∧
  (1 ≤ length (netIfa.getNeighborsUp ifA))%nat ∧
  NewCSNPs 7 (getLSPEntries storeNoNet) (netIfa.GetMTU ifA) ≠ [] ∧
  sendCSNPss NewCSNPs storeNoNet = ([], None) ∧
  ¬ ∃ c, sendCSNP ifA c (level storeNoNet) ∈ trace (sendCSNPss NewCSNPs storeNoNet).
Proof.
  split; [apply list_elem_of_In; vm_compute; tauto|].
  split; [vm_compute; lia|].
  split; [vm_compute; discriminate|].
  split; [vm_compute; reflexivity|].
  intros [c Hc]. vm_compute in Hc. by apply elem_of_nil in Hc.
Qed.

(** On [storeP] both flags of X are raised on the passive interface P:
    the LSPDU and PSNP routines send nothing on P (the LSPDU goes out on
    A only), while the CSNP routine sends its CSNP on A and on P. *)
Example passive_scenario :
  ((λ e, (getSRM ifP e, getSSN ifP e)) <$> lsps storeP !! 10) = Some (true, true) ∧
  trace (sendLSPDUs storeP) = [sendLSPDU ifA (lspX 5 1200) 2] ∧
  trace (sendPSNPss NewPSNPs storeP) = [] ∧
  trace (sendCSNPss NewCSNPs storeP) =
    [sendCSNP ifA (CSNP.mk 7 10 10 [ToLSPEntry (lspX 5 1200)]) 2;
     sendCSNP ifP (CSNP.mk 7 10 10 [ToLSPEntry (lspX 5 1200)]) 2].
Proof. vm_compute. done. Qed.

(** Scenario "flood on new", next LSPDU tick: the LSPDU is sent on B
    and C and not on A; after B's acknowledgement, on C only. *)
Example flood_on_new_tick :
  let l := processLSP ifA (lspX 5 1200) empty3 in
  trace (sendLSPDUs l) ≡ₚ
    [sendLSPDU ifB (lspX 5 1200) 2; sendLSPDU ifC (lspX 5 1200) 2] ∧
  trace (sendLSPDUs (processPSNP ifB (PSNP.mk 9 [ToLSPEntry (lspX 5 1200)]) l)) =
    [sendLSPDU ifC (lspX 5 1200) 2].
Proof.
  split.
  - vm_compute.
    first [reflexivity | apply perm_swap].
  - vm_compute. reflexivity.
Qed.

(** ** Remaining lifetimes of stored entries *)

Lemma lifetimes_positive_lookup (l : lsdb) :
  lifetimes_positive l ↔
  ∀ k e, lsps l !! k = Some e → 1 ≤ LSPDU.RemainingLifetime (lspdu e).
Proof. unfold lifetimes_positive. apply map_Forall_lookup. Qed.

(** A store each of whose entries carries the LSPDU of the entry an
    earlier store held under the same key inherits the predicate. *)
Lemma lifetimes_positive_inherit (l l' : lsdb) :
  (∀ k e', lsps l' !! k = Some e' →
           ∃ e, lsps l !! k = Some e ∧ lspdu e' = lspdu e) →
  lifetimes_positive l → lifetimes_positive l'.
Proof.
  rewrite !lifetimes_positive_lookup. intros Hinh Hl k e' Hk.
  destruct (Hinh k e' Hk) as (e & He & ->). by apply (Hl k).
Qed.

(** The aging step establishes the predicate from any store. *)
Lemma decrementRemainingLifetimes_positive (l : lsdb) :
  lifetimes_positive (decrementRemainingLifetimes l).
Proof.
  apply lifetimes_positive_lookup. intros k e' Hk.
  rewrite decrementRemainingLifetimes_lookup in Hk.
  destruct (lsps l !! k) as [e|]; simpl in Hk; [|done].
  unfold age in Hk. destruct (_ <=? 1) eqn:Hle; [done|].
  injection Hk as <-. simpl. apply N.leb_gt in Hle. lia.
Qed.

Lemma _clearAllSSNFlags_lookup (l : lsdb) (k : N) :
  lsps (_clearAllSSNFlags l) !! k = clearAllSSNFlags <$> lsps l !! k.
Proof.
  unfold _clearAllSSNFlags; simpl.
  rewrite (map_fold_range_lookup _ (λ _ e, Some (clearAllSSNFlags e))).
  - by destruct (lsps l !! k).
  - intros j e acc _. apply lookup_insert_eq.
  - intros j e acc i Hne. by apply lookup_insert_ne.
Qed.

Lemma processLSP_positive (ifa : netIfa.t) (p : LSPDU.t) (l : lsdb) :
  1 ≤ LSPDU.RemainingLifetime p →
  lifetimes_positive l → lifetimes_positive (processLSP ifa p l).
Proof.
  rewrite !lifetimes_positive_lookup. intros Hp Hl k e' Hk.
  destruct (decide (k = LSPDU.LSPID p)) as [->|Hne].
  - revert Hk. unfold processLSP.
    destruct (lsps l !! LSPDU.LSPID p) as [e|] eqn:He.
    + destruct (_ <? _).
      * rewrite processNewerLSPDU_lookup. by intros [= <-].
      * destruct (_ =? _); simpl; rewrite lookup_insert_eq;
          intros [= <-]; simpl; by apply (Hl _ _ He).
    + rewrite processNewerLSPDU_lookup. by intros [= <-].
  - rewrite processLSP_other in Hk by done. by apply (Hl k).
Qed.

Section Lifetimes.
Variables sameAs newer older : lsdbEntry → LSPEntry.t → bool.
Variable NewPSNPs : N → list LSPEntry.t → N → list PSNP.t.

Local Abbreviation run' := (run sameAs newer older NewPSNPs).

Lemma processCSNPLSPEntry_positive (e : LSPEntry.t) (from : netIfa.t) (l : lsdb) :
  1 ≤ LSPEntry.RemainingLifetime e →
  lifetimes_positive l →
  lifetimes_positive (processCSNPLSPEntry sameAs newer older e from l).
Proof.
  rewrite !lifetimes_positive_lookup. intros He Hl k e' Hk.
  destruct (decide (LSPEntry.LSPID e = k)) as [<-|Hne].
  - revert Hk. unfold processCSNPLSPEntry, _getLSPDU.
    destruct (lsps l !! LSPEntry.LSPID e) as [e0|] eqn:He0.
    + repeat case_match; simpl; rewrite ?lookup_insert_eq;
        try (intros [= <-]; simpl; by apply (Hl _ _ He0)).
      rewrite He0. intros [= <-]. by apply (Hl _ _ He0).
    + rewrite processCSNPLSPEntryUnknown_lookup. by intros [= <-].
  - rewrite processCSNPLSPEntry_other in Hk by done. by apply (Hl k).
Qed.

Lemma processCSNP_positive (from : netIfa.t) (csnp : CSNP.t) (l : lsdb) :
  Forall (λ e, 1 ≤ LSPEntry.RemainingLifetime e) (CSNP.GetLSPEntries csnp) →
  lifetimes_positive l →
  lifetimes_positive (processCSNP sameAs newer older from csnp l).
Proof.
  intros Hes Hl. unfold processCSNP.
  apply (lifetimes_positive_inherit
           (processCSNPEntries sameAs newer older from (CSNP.GetLSPEntries csnp) l)).
  - intros k e' Hk. rewrite processCSNPGaps_lookup in Hk.
    destruct (lsps _ !! k) as [e|]; simpl in Hk; [|done].
    exists e. split; [done|]. injection Hk as <-. by destruct (isGap csnp k e).
  - revert l Hl. unfold processCSNPEntries.
    induction Hes as [|e es He Hes IH]; intros l Hl; [done|].
    simpl. apply IH. by apply processCSNPLSPEntry_positive.
Qed.

Lemma processPSNP_positive (from : netIfa.t) (psnp : PSNP.t) (l : lsdb) :
  lifetimes_positive l → lifetimes_positive (processPSNP from psnp l).
Proof.
  apply lifetimes_positive_inherit. intros k e' Hk.
  rewrite processPSNP_lookup in Hk.
  destruct (lsps l !! k) as [e|]; [|by destruct (listed _ k)].
  exists e. split; [done|].
  destruct (listed _ k); simpl in Hk; by injection Hk as <-.
Qed.

Lemma sendPSNPss_positive (l : lsdb) :
  lifetimes_positive l →
  lifetimes_positive
    match outcome (sendPSNPss NewPSNPs l) with Some l' => l' | None => l end.
Proof.
  intros Hl. unfold sendPSNPss.
  destruct (Server.nets (srv l) !! 0%nat) as [srcID|]; [|exact Hl].
  rewrite outcome_bind. destruct (outcome (forEach _ _)); simpl; [|exact Hl].
  revert Hl. apply lifetimes_positive_inherit. intros k e' Hk.
  rewrite _clearAllSSNFlags_lookup in Hk.
  destruct (lsps l !! k) as [e|]; simpl in Hk; [|done].
  exists e. split; [done|]. by injection Hk as <-.
Qed.

(** One case per operation, each closed by the lemma of its routine. *)
Ltac positive_by_operation o :=
  destruct o; simpl in *;
  first [ apply decrementRemainingLifetimes_positive
        | by apply processLSP_positive
        | by apply processCSNP_positive
        | by apply processPSNP_positive
        | by apply sendPSNPss_positive
        | assumption ].

(** C5, as the code has it: the aging step, [processPSNP] and the three
    transmit routines keep every stored remaining lifetime at 1 or more;
    so does [processLSP] when the received LSPDU has remaining lifetime
    at least 1, and [processCSNP] when every LSPEntry it lists has. *)
Theorem lifetimes_positive_preserved (o : operation) (l : lsdb) :
  live_input o → lifetimes_positive l → lifetimes_positive (run' o l).
Proof. intros Hin Hl. positive_by_operation o. Qed.

(** Hence every store reached from the empty one through operations
    whose received PDUs carry no remaining lifetime 0 satisfies it. *)
Lemma reachable_lifetimes_positive (l : lsdb) :
  reachable sameAs newer older NewPSNPs live_input l → lifetimes_positive l.
Proof.
  induction 1 as [s b|o l Hreach IH Hok].
  - apply map_Forall_empty.
  - positive_by_operation o.
Qed.

End Lifetimes.

Lemma lifetimes_positive_preserved_witness :
  live_input (ReceiveLSP ifA (lspX 3 900)) ∧
  lifetimes_positive storeX7 ∧
  lifetimes_positive
    (run sameAsInLSPEntry newerInDatabase olderInDatabase NewPSNPs
       (ReceiveLSP ifA (lspX 3 900)) storeX7).
Proof.
  assert (Hin : live_input (ReceiveLSP ifA (lspX 3 900))) by (simpl; lia).
  assert (Hl : lifetimes_positive storeX7).
  { apply (bool_decide_unpack _). vm_compute. exact I. }
  split; [exact Hin|]. split; [exact Hl|].
  exact (lifetimes_positive_preserved
           sameAsInLSPEntry newerInDatabase olderInDatabase NewPSNPs
           (ReceiveLSP ifA (lspX 3 900)) storeX7 Hin Hl).
Defined.

(** C5 as stated fails: the empty store is reachable and satisfies the
    predicate; receiving a purge (an LSPDU of remaining lifetime 0) for
    an unknown LSPID stores it as received. *)
Lemma lifetime_zero_is_stored :
  lifetimes_positive empty3 ∧
  reachable sameAsInLSPEntry newerInDatabase olderInDatabase NewPSNPs any_input
    (processLSP ifA purgeX empty3) ∧
  (LSPDU.RemainingLifetime ∘ lspdu <$> lsps (processLSP ifA purgeX empty3) !! 10)
    = Some 0 ∧
  ¬ lifetimes_positive (processLSP ifA purgeX empty3).
Proof.
  split; [apply map_Forall_empty|]. split.
  { apply (reachable_run _ _ _ _ any_input (ReceiveLSP ifA purgeX) empty3);
      [apply reachable_new | exact I]. }
  split; [vm_compute; reflexivity|].
  intros H. apply lifetimes_positive_lookup with (k := 10)
    (e := mkEntry purgeX {[ifB; ifC]} {[ifA]}) in H.
  - vm_compute in H. by apply H.
  - vm_compute. reflexivity.
Qed.

(** * Further properties of lsdb.go *)

(** ** Aging over several ticks *)

(** X1: After [n] ticks an entry that started with remaining lifetime [t]
    is gone when [1 ≤ n] and [t ≤ n], and otherwise is the same entry
    with lifetime [t - n]; the routine never creates an entry. *)
Theorem decrementRemainingLifetimesRoutine_lookup (n : nat) (l : lsdb) (k : N) :
  lsps (decrementRemainingLifetimesRoutine n l) !! k =
    lsps l !! k ≫= λ e,
      if (0 <? N.of_nat n) && (LSPDU.RemainingLifetime (lspdu e) <=? N.of_nat n)
      then None
      else Some (aged (N.of_nat n) e).
Proof.
  revert l. induction n as [|n IH]; intros l.
  - simpl. destruct (lsps l !! k) as [[[] ? ?]|]; simpl; [|done].
    unfold aged; simpl. by rewrite N.sub_0_r.
  - cbn [decrementRemainingLifetimesRoutine].
    rewrite IH, decrementRemainingLifetimes_lookup.
    destruct (lsps l !! k) as [e|]; [|done].
    cbn [mbind option_bind]. unfold age.
    destruct (N.leb_spec (LSPDU.RemainingLifetime (lspdu e)) 1) as [Hle|Hgt].
    + cbn [mbind option_bind].
      destruct (N.ltb_spec 0 (N.of_nat (S n))); [|lia].
      destruct (N.leb_spec (LSPDU.RemainingLifetime (lspdu e)) (N.of_nat (S n)));
        [done|lia].
    + cbn [mbind option_bind].
      set (t := LSPDU.RemainingLifetime (lspdu e)) in *.
      assert (Ht : LSPDU.RemainingLifetime (lspdu (decRemainingLifetime e)) = t - 1)
        by done.
      rewrite Ht.
      destruct (decide (t ≤ N.of_nat (S n))) as [Hdead|Halive].
      * rewrite (proj2 (N.ltb_lt 0 (N.of_nat (S n)))) by lia.
        rewrite (proj2 (N.leb_le t (N.of_nat (S n)))) by lia.
        rewrite (proj2 (N.ltb_lt 0 (N.of_nat n))) by lia.
        by rewrite (proj2 (N.leb_le (t - 1) (N.of_nat n))) by lia.
      * rewrite (proj2 (N.leb_gt t (N.of_nat (S n)))) by lia.
        rewrite (proj2 (N.leb_gt (t - 1) (N.of_nat n))) by lia.
        rewrite !andb_false_r. unfold aged, decRemainingLifetime. cbn -[N.of_nat].
        fold t. do 3 f_equal. lia.
Qed.

(** ** setSRMAllLSPs and the LSPDU transmit routine *)

Lemma setSRMAllLSPs_lookup (ifa : netIfa.t) (l : lsdb) (k : N) :
  lsps (setSRMAllLSPs ifa l) !! k = setSRM ifa <$> lsps l !! k.
Proof.
  unfold setSRMAllLSPs; simpl.
  rewrite (map_fold_range_lookup _ (λ _ e, Some (setSRM ifa e))).
  - by destruct (lsps l !! k).
  - intros j e acc _. apply lookup_insert_eq.
  - intros j e acc i Hne. by apply lookup_insert_ne.
Qed.

(** X2: [setSRMAllLSPs] raises SRM on [ifa] for every stored entry and does
    nothing else: no key appears or disappears, and each entry keeps its
    LSPDU, its SSN flags and its SRM flags on every other interface. *)
Theorem setSRMAllLSPs_exact (ifa : netIfa.t) (l : lsdb) (k : N) :
  dom (lsps (setSRMAllLSPs ifa l)) = dom (lsps l) ∧
  match lsps l !! k with
  | None => lsps (setSRMAllLSPs ifa l) !! k = None
  | Some e =>
      ∃ e', lsps (setSRMAllLSPs ifa l) !! k = Some e' ∧
            getSRM ifa e' = true ∧
            lspdu e' = lspdu e ∧
            ssnFlags e' = ssnFlags e ∧
            ∀ i, i ≠ ifa → getSRM i e' = getSRM i e
  end.
Proof.
  split.
  - apply set_eq. intros j.
    by rewrite !elem_of_dom, setSRMAllLSPs_lookup, fmap_is_Some.
  - rewrite setSRMAllLSPs_lookup. destruct (lsps l !! k) as [e|]; [|done].
    eexists; split; [done|]. unfold getSRM; simpl.
    split; [apply bool_decide_eq_true; set_solver|].
    split; [done|]. split; [done|].
    intros i Hi. apply bool_decide_ext. set_solver.
Qed.

Lemma sendLSPDUs_trace (l : lsdb) :
  outcome (sendLSPDUs l) = Some tt ∧
  trace (sendLSPDUs l) =
    (map_to_list (lsps l) ≫= λ kv,
       elements (srmFlags kv.2) ≫= λ ifa,
         if netIfa.Passive (netIfa.cfg ifa) then []
         else [sendLSPDU ifa (lspdu kv.2) (level l)]).
Proof.
  assert (Hinner : ∀ kv : N * lsdbEntry,
    outcome (forEach (getInterfacesSRMSet kv.2) (λ ifa,
               if netIfa.Passive (netIfa.cfg ifa) then ret tt
               else emit (sendLSPDU ifa (lspdu kv.2) (level l)))) = Some tt ∧
    trace (forEach (getInterfacesSRMSet kv.2) (λ ifa,
             if netIfa.Passive (netIfa.cfg ifa) then ret tt
             else emit (sendLSPDU ifa (lspdu kv.2) (level l)))) =
      (elements (srmFlags kv.2) ≫= λ ifa,
         if netIfa.Passive (netIfa.cfg ifa) then []
         else [sendLSPDU ifa (lspdu kv.2) (level l)])).
  { intros kv.
    destruct (forEach_trace_ok (getInterfacesSRMSet kv.2) (λ ifa,
                if netIfa.Passive (netIfa.cfg ifa) then ret tt
                else emit (sendLSPDU ifa (lspdu kv.2) (level l)))) as [Ho Ht].
    { intros ifa _. by destruct (netIfa.Passive _). }
    split; [done|]. rewrite Ht. apply list_bind_ext; [|done].
    intros ifa. by destruct (netIfa.Passive _). }
  unfold sendLSPDUs.
  destruct (forEach_trace_ok (map_to_list (lsps l)) (λ kv,
              forEach (getInterfacesSRMSet kv.2) (λ ifa,
                if netIfa.Passive (netIfa.cfg ifa) then ret tt
                else emit (sendLSPDU ifa (lspdu kv.2) (level l))))) as [Ho Ht].
  { intros kv _. apply Hinner. }
  split; [done|]. rewrite Ht. apply list_bind_ext; [|done].
  intros kv. apply Hinner.
Qed.

Lemma elem_of_sendLSPDUs (l : lsdb) (ev : event) :
  ev ∈ trace (sendLSPDUs l) ↔
  ∃ k e ifa, lsps l !! k = Some e ∧ ifa ∈ srmFlags e ∧
             netIfa.Passive (netIfa.cfg ifa) = false ∧
             ev = sendLSPDU ifa (lspdu e) (level l).
Proof.
  destruct (sendLSPDUs_trace l) as [_ ->].
  rewrite list_elem_of_bind. split.
  - intros ([k e] & Hev & Hkv). simpl in Hev.
    apply elem_of_map_to_list in Hkv.
    apply list_elem_of_bind in Hev as (ifa & Hev & Hifa).
    apply elem_of_elements in Hifa.
    destruct (netIfa.Passive (netIfa.cfg ifa)) eqn:Hp.
    + by apply elem_of_nil in Hev.
    + apply list_elem_of_singleton in Hev. by exists k, e, ifa.
  - intros (k & e & ifa & Hk & Hifa & Hp & ->).
    exists (k, e). split; [|by apply elem_of_map_to_list].
    simpl. apply list_elem_of_bind. exists ifa.
    split; [|by apply elem_of_elements].
    rewrite Hp. by apply list_elem_of_singleton.
Qed.

(** X3: The LSPDU transmit routine never panics and sends exactly this: the
    LSPDU of every stored entry on every non-passive interface whose SRM
    flag the entry carries.  It writes nothing but LSPDU sends. *)
Theorem sendLSPDUs_exact (l : lsdb) :
  outcome (sendLSPDUs l) = Some tt ∧
  (∀ ifa p lvl,
     sendLSPDU ifa p lvl ∈ trace (sendLSPDUs l) ↔
     lvl = level l ∧ netIfa.Passive (netIfa.cfg ifa) = false ∧
     ∃ k e, lsps l !! k = Some e ∧ getSRM ifa e = true ∧ lspdu e = p) ∧
  Forall (λ ev, match ev with sendLSPDU _ _ _ => True | _ => False end)
    (trace (sendLSPDUs l)).
Proof.
  split; [apply sendLSPDUs_trace|]. split.
  - intros ifa p lvl. rewrite elem_of_sendLSPDUs. unfold getSRM. split.
    + intros (k & e & i & Hk & Hi & Hp & [= -> -> ->]).
      split; [done|]. split; [done|]. exists k, e.
      split; [done|]. split; [by apply bool_decide_eq_true|done].
    + intros (-> & Hp & k & e & Hk & Hi%bool_decide_eq_true & <-).
      by exists k, e, ifa.
  - apply Forall_forall. intros ev Hev.
    apply elem_of_sendLSPDUs in Hev as (k & e & i & _ & _ & _ & ->). done.
Qed.

(** X4: When SRM has been raised on a non-passive interface for the whole
    store (a neighbour came up), the next LSPDU tick sends every stored
    LSPDU on that interface. *)
Theorem setSRMAllLSPs_floods (ifa : netIfa.t) (l : lsdb) (k : N) (e : lsdbEntry) :
  netIfa.Passive (netIfa.cfg ifa) = false →
  lsps l !! k = Some e →
  sendLSPDU ifa (lspdu e) (level l) ∈ trace (sendLSPDUs (setSRMAllLSPs ifa l)).
Proof.
  intros Hp Hk. apply elem_of_sendLSPDUs.
  exists k, (setSRM ifa e), ifa.
  split; [by rewrite setSRMAllLSPs_lookup, Hk|].
  split; [simpl; set_solver|]. done.
Qed.

Lemma setSRMAllLSPs_floods_witness :
  netIfa.Passive (netIfa.cfg ifB) = false ∧
  lsps storeX7 !! 10 = Some entryX7 ∧
  sendLSPDU ifB (lspdu entryX7) (level storeX7)
    ∈ trace (sendLSPDUs (setSRMAllLSPs ifB storeX7)).
Proof.
  split; [reflexivity|]. split; [vm_compute; reflexivity|].
  apply (setSRMAllLSPs_floods ifB storeX7 10 entryX7);
    [reflexivity | vm_compute; reflexivity].
Defined.

(** ** More on processLSP *)

Lemma with_lsps_with_lsps (l : lsdb) (m m' : gmap N lsdbEntry) :
  with_lsps (with_lsps l m) m' = with_lsps l m'.
Proof. done. Qed.

Lemma processSameLSPDU_idem (ifa : netIfa.t) (e : lsdbEntry) :
  processSameLSPDU ifa (processSameLSPDU ifa e) = processSameLSPDU ifa e.
Proof.
  unfold processSameLSPDU, setSSN, clearSRMFlag; simpl. f_equal; set_solver.
Qed.

Lemma newerLocalLSPDU_idem (ifa : netIfa.t) (e : lsdbEntry) :
  newerLocalLSPDU ifa (newerLocalLSPDU ifa e) = newerLocalLSPDU ifa e.
Proof.
  unfold newerLocalLSPDU, setSRM, clearSSNFlag; simpl. f_equal; set_solver.
Qed.

(** X5: [processLSP] touches the store at the LSPDU's own LSPID only: the
    server context and every other key stay, that one key is present
    afterwards; and unless the received LSPDU is installed, the entry
    keeps its LSPDU and its flags on every interface but [ifa]. *)
Theorem processLSP_frame (ifa : netIfa.t) (p : LSPDU.t) (l : lsdb) :
  srv (processLSP ifa p l) = srv l ∧
  isL1 (processLSP ifa p l) = isL1 l ∧
  dom (lsps (processLSP ifa p l)) = {[LSPDU.LSPID p]} ∪ dom (lsps l) ∧
  (∀ k, k ≠ LSPDU.LSPID p → lsps (processLSP ifa p l) !! k = lsps l !! k) ∧
  match lsps l !! LSPDU.LSPID p with
  | None => True
  | Some e =>
      if LSPDU.SequenceNumber (lspdu e) <? LSPDU.SequenceNumber p then True
      else ∃ e', lsps (processLSP ifa p l) !! LSPDU.LSPID p = Some e' ∧
                 lspdu e' = lspdu e ∧
                 ∀ i, i ≠ ifa →
                      getSRM i e' = getSRM i e ∧ getSSN i e' = getSSN i e
  end.
Proof.
  split; [unfold processLSP, processNewerLSPDU; by repeat case_match|].
  split; [unfold processLSP, processNewerLSPDU; by repeat case_match|].
  split.
  { unfold processLSP, processNewerLSPDU. repeat case_match; simpl;
      by rewrite dom_insert_L. }
  split.
  { intros k Hk. unfold processLSP, processNewerLSPDU.
    repeat case_match; simpl; by rewrite lookup_insert_ne. }
  unfold processLSP.
  destruct (lsps l !! LSPDU.LSPID p) as [e|]; [|done].
  destruct (_ <? _); [done|].
  destruct (_ =? _); simpl; rewrite lookup_insert_eq;
    (eexists; split; [done|]); (split; [done|]);
    intros i Hi; unfold getSRM, getSSN; simpl;
    split; apply bool_decide_ext; set_solver.
Qed.

(** X6: A duplicate is harmless: handing the same LSPDU to [processLSP] a
    second time on the same interface leaves the LSDB exactly as the
    first call left it. *)
Theorem processLSP_idempotent (ifa : netIfa.t) (p : LSPDU.t) (l : lsdb) :
  processLSP ifa p (processLSP ifa p l) = processLSP ifa p l.
Proof.
  assert (Hnew : processLSP ifa p (processNewerLSPDU ifa p l)
                 = processNewerLSPDU ifa p l).
  { unfold processLSP at 1. rewrite processNewerLSPDU_lookup. simpl.
    rewrite N.ltb_irrefl, N.eqb_refl.
    rewrite insert_insert_eq. unfold processNewerLSPDU.
    rewrite with_lsps_with_lsps. f_equal. f_equal.
    destruct (setSRM_foldl (newLSDBEntry p)
                (Server.getAllInterfacesExcept (srv l) ifa)) as (Hp & Hsrm & Hssn).
    unfold processSameLSPDU, setSSN, clearSRMFlag; simpl.
    rewrite Hp, Hsrm, Hssn. simpl. f_equal; set_solver. }
  destruct (lsps l !! LSPDU.LSPID p) as [e|] eqn:Hk.
  - destruct (LSPDU.SequenceNumber (lspdu e) <? LSPDU.SequenceNumber p) eqn:Hlt.
    { assert (processLSP ifa p l = processNewerLSPDU ifa p l) as ->
        by (unfold processLSP; by rewrite Hk, Hlt).
      exact Hnew. }
    destruct (LSPDU.SequenceNumber p =? LSPDU.SequenceNumber (lspdu e)) eqn:Heq.
    + assert (processLSP ifa p l =
              with_lsps l (<[LSPDU.LSPID p := processSameLSPDU ifa e]> (lsps l)))
        as -> by (unfold processLSP; by rewrite Hk, Hlt, Heq).
      unfold processLSP. simpl. rewrite lookup_insert_eq. simpl.
      rewrite Hlt, Heq, with_lsps_with_lsps, insert_insert_eq.
      by rewrite processSameLSPDU_idem.
    + assert (processLSP ifa p l =
              with_lsps l (<[LSPDU.LSPID p := newerLocalLSPDU ifa e]> (lsps l)))
        as -> by (unfold processLSP; by rewrite Hk, Hlt, Heq).
      unfold processLSP. simpl. rewrite lookup_insert_eq. simpl.
      rewrite Hlt, Heq, with_lsps_with_lsps, insert_insert_eq.
      by rewrite newerLocalLSPDU_idem.
  - assert (processLSP ifa p l = processNewerLSPDU ifa p l) as ->
      by (unfold processLSP; by rewrite Hk).
    exact Hnew.
Qed.

(** X7: [_isNewer] panics exactly when [_exists] is false; the guard of
    [processLSP] is the pair of them: a packet that does not exist in
    the store or is newer is installed, and one that exists and is not
    newer leaves the stored LSPDU in place. *)
Theorem _isNewer_guards_processLSP (ifa : netIfa.t) (p : LSPDU.t) (l : lsdb) :
  (_isNewer l p = None ↔ _exists l p = false) ∧
  match _isNewer l p with
  | None | Some true => processLSP ifa p l = processNewerLSPDU ifa p l
  | Some false =>
      lspdu <$> lsps (processLSP ifa p l) !! LSPDU.LSPID p =
      lspdu <$> lsps l !! LSPDU.LSPID p
  end.
Proof.
  unfold _isNewer, _exists, processLSP.
  destruct (lsps l !! LSPDU.LSPID p) as [e|] eqn:Hk.
  - split.
    + split; [done|]. intros H%bool_decide_eq_false. by destruct H.
    + destruct (_ <? _); [done|].
      destruct (_ =? _); simpl; by rewrite lookup_insert_eq.
  - split; [|done]. split; [|done]. intros _.
    apply bool_decide_eq_false. by intros [? ?].
Qed.

(** ** More on processPSNP *)

Lemma lsdb_eq (l l' : lsdb) :
  srv l = srv l' → isL1 l = isL1 l' → (∀ k, lsps l !! k = lsps l' !! k) → l = l'.
Proof.
  destruct l, l'; simpl. intros -> -> Hk. f_equal. by apply map_eq.
Qed.

Lemma clearSRMFlag_comm (a b : netIfa.t) (e : lsdbEntry) :
  clearSRMFlag a (clearSRMFlag b e) = clearSRMFlag b (clearSRMFlag a e).
Proof. unfold clearSRMFlag; simpl. f_equal. set_solver. Qed.

(** X8: Acknowledgements can be repeated and reordered freely: processing
    the same PSNP twice equals processing it once, and two PSNPs, from
    the same or from different interfaces, have the same effect in
    either order. *)
Theorem processPSNP_idempotent_commutes
    (a b : netIfa.t) (p q : PSNP.t) (l : lsdb) :
  processPSNP a p (processPSNP a p l) = processPSNP a p l ∧
  processPSNP a p (processPSNP b q l) = processPSNP b q (processPSNP a p l).
Proof.
  split; apply lsdb_eq; try done; intros k; rewrite !processPSNP_lookup.
  - destruct (listed _ k); [|done].
    rewrite <- option_fmap_compose. apply option_fmap_ext.
    intros e. apply clearSRMFlag_idem.
  - destruct (listed (PSNP.GetLSPEntries p) k),
      (listed (PSNP.GetLSPEntries q) k); try done.
    rewrite <- !option_fmap_compose. apply option_fmap_ext.
    intros e. apply clearSRMFlag_comm.
Qed.

(** ** The summaries handed to the packers *)

Lemma foldl_append_filter {A B} (c : A → bool) (g : A → B) (xs : list A) (acc : list B) :
  foldl (λ ret x, if negb (c x) then ret else ret ++ [g x]) acc xs =
    acc ++ (g <$> filter (λ x, c x = true) xs).
Proof.
  revert acc. induction xs as [|x xs IH]; intros acc; simpl.
  - by rewrite app_nil_r.
  - rewrite IH. rewrite filter_cons.
    destruct (decide (c x = true)) as [Hc|Hc].
    + rewrite Hc. simpl. by rewrite <- app_assoc.
    + apply not_true_is_false in Hc. by rewrite Hc.
Qed.

Lemma foldl_append_map {A B} (g : A → B) (xs : list A) (acc : list B) :
  foldl (λ ret x, ret ++ [g x]) acc xs = acc ++ (g <$> xs).
Proof.
  revert acc. induction xs as [|x xs IH]; intros acc; simpl.
  - by rewrite app_nil_r.
  - by rewrite IH, <- app_assoc.
Qed.

Lemma elem_of_getLSPWithSSNSet (l : lsdb) (ifa : netIfa.t) (x : LSPEntry.t) :
  x ∈ _getLSPWithSSNSet l ifa ↔
  ∃ k e, lsps l !! k = Some e ∧ getSSN ifa e = true ∧ x = ToLSPEntry (lspdu e).
Proof.
  unfold _getLSPWithSSNSet.
  rewrite (foldl_append_filter (λ kv, getSSN ifa kv.2)
             (λ kv, ToLSPEntry (lspdu kv.2))). simpl.
  rewrite list_elem_of_fmap. split.
  - intros ([k e] & -> & Hin). apply list_elem_of_filter in Hin as [Hssn Hin].
    apply elem_of_map_to_list in Hin. by exists k, e.
  - intros (k & e & Hk & Hssn & ->). exists (k, e). split; [done|].
    apply list_elem_of_filter. split; [done|]. by apply elem_of_map_to_list.
Qed.

(** X9: [getLSPEntries] is a complete snapshot, one summary per stored
    entry; [_getLSPWithSSNSet] holds the summaries of exactly the entries
    whose SSN flag is raised on the interface, never more than the store
    has entries. *)
Theorem summaries_of_the_store (l : lsdb) (ifa : netIfa.t) :
  length (getLSPEntries l) = size (lsps l) ∧
  (∀ x, x ∈ getLSPEntries l ↔
        ∃ k e, lsps l !! k = Some e ∧ x = ToLSPEntry (lspdu e)) ∧
  (∀ x, x ∈ _getLSPWithSSNSet l ifa ↔
        ∃ k e, lsps l !! k = Some e ∧ getSSN ifa e = true ∧
               x = ToLSPEntry (lspdu e)) ∧
  (length (_getLSPWithSSNSet l ifa) ≤ size (lsps l))%nat.
Proof.
  assert (Hall : getLSPEntries l =
                 (λ kv, ToLSPEntry (lspdu kv.2)) <$> map_to_list (lsps l)).
  { unfold getLSPEntries.
    by rewrite (foldl_append_map (λ kv : N * lsdbEntry, ToLSPEntry (lspdu kv.2))). }
  split; [by rewrite Hall, length_fmap, length_map_to_list|].
  split.
  { intros x. rewrite Hall, list_elem_of_fmap. split.
    - intros ([k e] & -> & Hin%elem_of_map_to_list). by exists k, e.
    - intros (k & e & Hk & ->). exists (k, e).
      split; [done|]. by apply elem_of_map_to_list. }
  split; [apply elem_of_getLSPWithSSNSet|].
  unfold _getLSPWithSSNSet.
  rewrite (foldl_append_filter (λ kv, getSSN ifa kv.2)
             (λ kv, ToLSPEntry (lspdu kv.2))). simpl.
  rewrite length_fmap, <- length_map_to_list. apply length_filter.
Qed.

(** ** The PSNP transmit routine *)

Section PSNP_transmit.
Variable NewPSNPs' : N → list LSPEntry.t → N → list PSNP.t.

Lemma sendPSNPss_run (l : lsdb) (srcID : N) :
  Server.nets (srv l) !! 0%nat = Some srcID →
  outcome (sendPSNPss NewPSNPs' l) = Some (_clearAllSSNFlags l) ∧
  trace (sendPSNPss NewPSNPs' l) =
    (Server.getAllInterfaces (srv l) ≫= λ ifa,
       if netIfa.Passive (netIfa.cfg ifa) then []
       else (λ q, sendPSNP ifa q (level l))
              <$> NewPSNPs' srcID (_getLSPWithSSNSet l ifa) (netIfa.GetMTU ifa)).
Proof.
  intros Hnet. unfold sendPSNPss. rewrite Hnet.
  rewrite trace_bind, outcome_bind.
  destruct (forEach_trace_ok (Server.getAllInterfaces (srv l)) (λ ifa,
              if netIfa.Passive (netIfa.cfg ifa) then ret tt
              else forEach
                     (NewPSNPs' srcID (_getLSPWithSSNSet l ifa) (netIfa.GetMTU ifa))
                     (λ psnp, emit (sendPSNP ifa psnp (level l))))) as [Ho Ht].
  { intros ifa _. destruct (netIfa.Passive _); [done|]. apply forEach_emit. }
  rewrite Ho, Ht. simpl. split; [done|].
  rewrite app_nil_r. apply list_bind_ext; [|done].
  intros ifa. destruct (netIfa.Passive _); [done|]. apply forEach_emit.
Qed.

(** X10: Without a NET the PSNP transmit routine panics before it sends or
    changes anything.  With one it returns, and the store it leaves has
    no SSN flag on any entry for any interface, passive interfaces (to
    which nothing was sent) included, while keys, LSPDUs and SRM flags
    are as before. *)
Theorem sendPSNPss_clears_all_SSN (l : lsdb) (k : N) :
  match Server.nets (srv l) !! 0%nat with
  | None => sendPSNPss NewPSNPs' l = ([], None)
  | Some _ =>
      ∃ l', outcome (sendPSNPss NewPSNPs' l) = Some l' ∧
            srv l' = srv l ∧ isL1 l' = isL1 l ∧
            dom (lsps l') = dom (lsps l) ∧
            match lsps l !! k with
            | None => lsps l' !! k = None
            | Some e =>
                ∃ e', lsps l' !! k = Some e' ∧ ssnFlags e' = ∅ ∧
                      (∀ i, getSSN i e' = false) ∧
                      srmFlags e' = srmFlags e ∧ lspdu e' = lspdu e
            end
  end.
Proof.
  destruct (Server.nets (srv l) !! 0%nat) as [srcID|] eqn:Hnet.
  - destruct (sendPSNPss_run l srcID Hnet) as [Ho _].
    exists (_clearAllSSNFlags l). split; [done|].
    split; [done|]. split; [done|]. split.
    + apply set_eq. intros j.
      by rewrite !elem_of_dom, _clearAllSSNFlags_lookup, fmap_is_Some.
    + rewrite _clearAllSSNFlags_lookup.
      destruct (lsps l !! k) as [e|]; [|done].
      eexists; split; [done|]. split; [done|]. split; [|done].
      intros i. unfold getSSN; simpl. apply bool_decide_eq_false. set_solver.
  - unfold sendPSNPss. by rewrite Hnet.
Qed.

Lemma elem_of_sendPSNPss (l : lsdb) (srcID : N) (ifa : netIfa.t) (q : PSNP.t) (lvl : nat) :
  Server.nets (srv l) !! 0%nat = Some srcID →
  sendPSNP ifa q lvl ∈ trace (sendPSNPss NewPSNPs' l) ↔
  lvl = level l ∧
  ifa ∈ Server.getAllInterfaces (srv l) ∧
  netIfa.Passive (netIfa.cfg ifa) = false ∧
  q ∈ NewPSNPs' srcID (_getLSPWithSSNSet l ifa) (netIfa.GetMTU ifa).
Proof.
  intros Hnet. destruct (sendPSNPss_run l srcID Hnet) as [_ ->].
  rewrite list_elem_of_bind. split.
  - intros (i & Hev & Hi).
    destruct (netIfa.Passive (netIfa.cfg i)) eqn:Hp;
      [by apply elem_of_nil in Hev|].
    apply list_elem_of_fmap in Hev as (q' & [= -> -> ->] & Hq). done.
  - intros (-> & Hi & Hp & Hq). exists ifa. split; [|done].
    rewrite Hp. apply list_elem_of_fmap. by exists q.
Qed.

(** X11: With a NET configured, a PSNP goes out on an interface exactly when
    the interface is managed and not passive and the packer produced
    that PSNP from the summaries of the entries with SSN raised on the
    interface; the routine sends nothing but PSNPs. *)
Theorem sendPSNPss_exact
    (l : lsdb) (srcID : N) (ifa : netIfa.t) (q : PSNP.t) (lvl : nat) :
  Server.nets (srv l) !! 0%nat = Some srcID →
  (sendPSNP ifa q lvl ∈ trace (sendPSNPss NewPSNPs' l) ↔
   lvl = level l ∧
   ifa ∈ Server.getAllInterfaces (srv l) ∧
   netIfa.Passive (netIfa.cfg ifa) = false ∧
   q ∈ NewPSNPs' srcID (_getLSPWithSSNSet l ifa) (netIfa.GetMTU ifa)) ∧
  Forall (λ ev, match ev with sendPSNP _ _ _ => True | _ => False end)
    (trace (sendPSNPss NewPSNPs' l)).
Proof.
  intros Hnet. split; [by apply elem_of_sendPSNPss|].
  destruct (sendPSNPss_run l srcID Hnet) as [_ ->].
  apply Forall_forall. intros ev Hev.
  apply list_elem_of_bind in Hev as (i & Hev & _).
  destruct (netIfa.Passive (netIfa.cfg i)); [by apply elem_of_nil in Hev|].
  by apply list_elem_of_fmap in Hev as (q' & -> & _).
Qed.

Lemma _clearAllSSNFlags_idem (l : lsdb) :
  _clearAllSSNFlags (_clearAllSSNFlags l) = _clearAllSSNFlags l.
Proof.
  apply lsdb_eq; [done|done|]. intros k.
  rewrite !_clearAllSSNFlags_lookup.
  by destruct (lsps l !! k).
Qed.

(** X12: A PSNP tick that directly follows a completed one is a no-op,
    provided the packer emits nothing for an empty list: run on the LSDB
    the first run returned, [sendPSNPss] sends nothing and returns that
    LSDB unchanged.  (The first run cleared every SSN flag, whether or
    not a PSNP went out for it.) *)
Theorem sendPSNPss_then_silent (l l' : lsdb) :
  (∀ s m, NewPSNPs' s [] m = []) →
  outcome (sendPSNPss NewPSNPs' l) = Some l' →
  sendPSNPss NewPSNPs' l' = ([], Some l').
Proof.
  intros Hempty Hout.
  destruct (Server.nets (srv l) !! 0%nat) as [srcID|] eqn:Hnet;
    [|unfold sendPSNPss in Hout; by rewrite Hnet in Hout].
  destruct (sendPSNPss_run l srcID Hnet) as [Ho _].
  rewrite Ho in Hout. injection Hout as <-.
  destruct (sendPSNPss_run (_clearAllSSNFlags l) srcID Hnet) as [Ho2 Ht2].
  assert (Hnone : ∀ ifa, _getLSPWithSSNSet (_clearAllSSNFlags l) ifa = []).
  { intros ifa. apply elem_of_nil_inv. intros x Hx.
    apply elem_of_getLSPWithSSNSet in Hx as (k & e & Hk & Hssn & _).
    rewrite _clearAllSSNFlags_lookup in Hk.
    destruct (lsps l !! k) as [e0|]; simpl in Hk; [|done].
    injection Hk as <-. unfold getSSN in Hssn; simpl in Hssn.
    apply bool_decide_eq_true in Hssn. set_solver. }
  assert (Htrace : trace (sendPSNPss NewPSNPs' (_clearAllSSNFlags l)) = []).
  { rewrite Ht2. clear Ho2 Ht2.
    induction (Server.getAllInterfaces (srv (_clearAllSSNFlags l))) as [|i rest IH];
      [done|].
    change ((i :: rest) ≫= ?f) with (f i ++ (rest ≫= f)).
    rewrite IH, Hnone, Hempty. by destruct (netIfa.Passive _). }
  rewrite _clearAllSSNFlags_idem in Ho2.
  destruct (sendPSNPss NewPSNPs' (_clearAllSSNFlags l)) as [t o].
  unfold trace, outcome in *. simpl in *. by rewrite Htrace, Ho2.
Qed.

End PSNP_transmit.

Lemma sendPSNPss_exact_witness :
  Server.nets (srv storeX7) !! 0%nat = Some 7 ∧
  (sendPSNP ifB (PSNP.mk 7 [ToLSPEntry (lspX 7 900)]) 2
     ∈ trace (sendPSNPss NewPSNPs storeX7) ↔
   2%nat = level storeX7 ∧
   ifB ∈ Server.getAllInterfaces (srv storeX7) ∧
   netIfa.Passive (netIfa.cfg ifB) = false ∧
   PSNP.mk 7 [ToLSPEntry (lspX 7 900)]
     ∈ NewPSNPs 7 (_getLSPWithSSNSet storeX7 ifB) (netIfa.GetMTU ifB)) ∧
  Forall (λ ev, match ev with sendPSNP _ _ _ => True | _ => False end)
    (trace (sendPSNPss NewPSNPs storeX7)).
Proof.
  split; [reflexivity|].
  apply (sendPSNPss_exact NewPSNPs storeX7 7 ifB
           (PSNP.mk 7 [ToLSPEntry (lspX 7 900)]) 2).
  reflexivity.
Defined.

Lemma sendPSNPss_then_silent_witness :
  (∀ s m, NewPSNPs s [] m = []) ∧
  outcome (sendPSNPss NewPSNPs storeX7) = Some (_clearAllSSNFlags storeX7) ∧
  sendPSNPss NewPSNPs (_clearAllSSNFlags storeX7)
    = ([], Some (_clearAllSSNFlags storeX7)).
Proof.
  assert (Hempty : ∀ s m, NewPSNPs s [] m = []) by reflexivity.
  assert (Hout : outcome (sendPSNPss NewPSNPs storeX7)
                 = Some (_clearAllSSNFlags storeX7)) by (vm_compute; reflexivity).
  split; [exact Hempty|]. split; [exact Hout|].
  exact (sendPSNPss_then_silent NewPSNPs storeX7 (_clearAllSSNFlags storeX7)
           Hempty Hout).
Defined.

(** On [storeX7] the acknowledgement owed to B is sent on B, once. *)
Example psnp_sent_once :
  trace (sendPSNPss NewPSNPs storeX7) =
    [sendPSNP ifB (PSNP.mk 7 [ToLSPEntry (lspX 7 900)]) 2] ∧
  (trace ∘ sendPSNPss NewPSNPs <$> outcome (sendPSNPss NewPSNPs storeX7)) = Some [].
Proof. vm_compute. done. Qed.

(** ** More on processCSNP *)

Lemma same_on_others_refl (from : netIfa.t) (e : lsdbEntry) :
  same_on_others from e e.
Proof. by split. Qed.

Lemma same_on_others_trans (from : netIfa.t) (e1 e2 e3 : lsdbEntry) :
  same_on_others from e1 e2 → same_on_others from e2 e3 →
  same_on_others from e1 e3.
Proof.
  intros [Hp1 Hf1] [Hp2 Hf2]. split; [congruence|].
  intros i Hi. destruct (Hf1 i Hi), (Hf2 i Hi). split; etrans; eauto.
Qed.

Lemma same_on_others_flags (from : netIfa.t) (e e' : lsdbEntry) :
  same_on_others from e e' →
  lspdu e' = lspdu e ∧
  ∀ i, i ≠ from → getSRM i e' = getSRM i e ∧ getSSN i e' = getSSN i e.
Proof.
  intros [Hp Hf]. split; [done|]. intros i Hi. destruct (Hf i Hi).
  unfold getSRM, getSSN. split; by apply bool_decide_ext.
Qed.

Section CSNP_more.
Variables sameAs newer older : lsdbEntry → LSPEntry.t → bool.

Local Abbreviation processEntry := (processCSNPLSPEntry sameAs newer older).
Local Abbreviation processEntries := (processCSNPEntries sameAs newer older).
Local Abbreviation processCSNP' := (processCSNP sameAs newer older).

(** The entry a known LSPID is left with by one LSPEntry. *)
Lemma processCSNPLSPEntry_known_lookup
    (x : LSPEntry.t) (from : netIfa.t) (l : lsdb) (e : lsdbEntry) :
  lsps l !! LSPEntry.LSPID x = Some e →
  lsps (processEntry x from l) !! LSPEntry.LSPID x =
    Some (if sameAs e x then clearSRMFlag from e
          else if newer e x then setSRM from (clearSSNFlag from e)
          else if older e x then setSSN from (clearSRMFlag from e)
          else e).
Proof.
  intros Hk. unfold processCSNPLSPEntry, _getLSPDU. rewrite Hk.
  repeat case_match; simpl; by rewrite ?lookup_insert_eq.
Qed.

Lemma processCSNPLSPEntry_rel
    (x : LSPEntry.t) (from : netIfa.t) (l : lsdb) (k : N) (e : lsdbEntry) :
  lsps l !! k = Some e →
  ∃ e', lsps (processEntry x from l) !! k = Some e' ∧ same_on_others from e e'.
Proof.
  intros Hk. destruct (decide (LSPEntry.LSPID x = k)) as [<-|Hne].
  - rewrite (processCSNPLSPEntry_known_lookup x from l e Hk).
    eexists; split; [done|]. split; [by repeat case_match|].
    intros i Hi. repeat case_match; simpl; set_solver.
  - rewrite processCSNPLSPEntry_other by done. exists e.
    split; [done|]. apply same_on_others_refl.
Qed.

Lemma processCSNPEntries_rel
    (from : netIfa.t) (es : list LSPEntry.t) (l : lsdb) (k : N) (e : lsdbEntry) :
  lsps l !! k = Some e →
  ∃ e', lsps (processEntries from es l) !! k = Some e' ∧ same_on_others from e e'.
Proof.
  revert l e. induction es as [|x es IH]; intros l e Hk.
  - exists e. split; [done|]. apply same_on_others_refl.
  - destruct (processCSNPLSPEntry_rel x from l k e Hk) as (e1 & H1 & R1).
    destruct (IH _ _ H1) as (e2 & H2 & R2).
    exists e2. split; [exact H2|]. by eapply same_on_others_trans.
Qed.

Lemma processCSNP_rel
    (from : netIfa.t) (csnp : CSNP.t) (l : lsdb) (k : N) (e : lsdbEntry) :
  lsps l !! k = Some e →
  ∃ e', lsps (processCSNP' from csnp l) !! k = Some e' ∧ same_on_others from e e'.
Proof.
  intros Hk.
  destruct (processCSNPEntries_rel from (CSNP.GetLSPEntries csnp) l k e Hk)
    as (e1 & H1 & R1).
  unfold processCSNP. rewrite processCSNPGaps_lookup, H1. simpl.
  eexists; split; [done|]. eapply same_on_others_trans; [exact R1|].
  split; [by destruct (isGap csnp k e1)|].
  intros i Hi. destruct (isGap csnp k e1); simpl; set_solver.
Qed.

Lemma processCSNPLSPEntry_dom (x : LSPEntry.t) (from : netIfa.t) (l : lsdb) :
  dom (lsps (processEntry x from l)) = {[LSPEntry.LSPID x]} ∪ dom (lsps l).
Proof.
  unfold processCSNPLSPEntry, processCSNPLSPEntryUnknown, _getLSPDU.
  destruct (lsps l !! LSPEntry.LSPID x) as [e|] eqn:Hk.
  - assert (LSPEntry.LSPID x ∈ dom (lsps l)) by (apply elem_of_dom; eauto).
    repeat case_match; simpl; rewrite ?dom_insert_L; set_solver.
  - simpl. apply set_eq. intros j.
    rewrite elem_of_dom, lookup_alter, elem_of_union, elem_of_singleton, elem_of_dom.
    case_decide as Hj.
    + subst j. rewrite lookup_insert_eq. simpl. split; [by left|eauto].
    + rewrite lookup_insert_ne by done. split; [by right|].
      intros [->|?]; done.
Qed.

Lemma processCSNP_dom (from : netIfa.t) (csnp : CSNP.t) (l : lsdb) :
  dom (lsps (processCSNP' from csnp l)) =
    list_to_set (LSPEntry.LSPID <$> CSNP.GetLSPEntries csnp) ∪ dom (lsps l).
Proof.
  assert (Hgap : ∀ l0, dom (lsps (processCSNPGaps from csnp l0)) = dom (lsps l0)).
  { intros l0. apply set_eq. intros j.
    by rewrite !elem_of_dom, processCSNPGaps_lookup, fmap_is_Some. }
  unfold processCSNP. rewrite Hgap.
  generalize (CSNP.GetLSPEntries csnp). intros es. revert l.
  induction es as [|x es IH]; intros l; [set_solver|].
  unfold processCSNPEntries in *. simpl.
  rewrite IH, processCSNPLSPEntry_dom. set_solver.
Qed.

Lemma listed_elem_of (es : list LSPEntry.t) (k : N) :
  listed es k = true ↔ k ∈ LSPEntry.LSPID <$> es.
Proof.
  unfold listed. rewrite existsb_exists, list_elem_of_fmap. split.
  - intros (x & Hx%list_elem_of_In & Heq%N.eqb_eq). by exists x.
  - intros (x & -> & Hx). exists x.
    split; [by apply list_elem_of_In | apply N.eqb_refl].
Qed.

(** X13: How one LSPEntry of a CSNP moves the flags of an entry the store
    holds: the three comparators are tried in the order same, newer,
    older, and the first that holds decides; when none holds the entry is
    left as it is. *)
Theorem processCSNPLSPEntry_known
    (x : LSPEntry.t) (from : netIfa.t) (l : lsdb) (e : lsdbEntry) :
  lsps l !! LSPEntry.LSPID x = Some e →
  ∃ e', lsps (processEntry x from l) !! LSPEntry.LSPID x = Some e' ∧
        lspdu e' = lspdu e ∧
        (∀ i, i ≠ from → getSRM i e' = getSRM i e ∧ getSSN i e' = getSSN i e) ∧
        if sameAs e x
        then getSRM from e' = false ∧ getSSN from e' = getSSN from e
        else if newer e x
        then getSRM from e' = true ∧ getSSN from e' = false
        else if older e x
        then getSRM from e' = false ∧ getSSN from e' = true
        else e' = e.
Proof.
  intros Hk. rewrite (processCSNPLSPEntry_known_lookup x from l e Hk).
  eexists; split; [done|]. split; [by repeat case_match|]. split.
  { intros i Hi. unfold getSRM, getSSN.
    repeat case_match; simpl; split; apply bool_decide_ext; set_solver. }
  unfold getSRM, getSSN. repeat case_match; simpl; try done.
  - split; [apply bool_decide_eq_false; set_solver|done].
  - split; [apply bool_decide_eq_true | apply bool_decide_eq_false]; set_solver.
  - split; [apply bool_decide_eq_false | apply bool_decide_eq_true]; set_solver.
Qed.

(** X14: A CSNP never replaces or removes what the store holds: every entry
    present before [processCSNP] is present after it with the same
    LSPDU, and with the same SRM and SSN flags on every interface other
    than the one the CSNP came from. *)
Theorem processCSNP_keeps_entries
    (from : netIfa.t) (csnp : CSNP.t) (l : lsdb) (k : N) :
  srv (processCSNP' from csnp l) = srv l ∧
  match lsps l !! k with
  | None => True
  | Some e =>
      ∃ e', lsps (processCSNP' from csnp l) !! k = Some e' ∧
            lspdu e' = lspdu e ∧
            ∀ i, i ≠ from → getSRM i e' = getSRM i e ∧ getSSN i e' = getSSN i e
  end.
Proof.
  split.
  { unfold processCSNP, processCSNPGaps, processCSNPEntries. simpl.
    generalize (CSNP.GetLSPEntries csnp). intros es. revert l.
    induction es as [|x es IH]; intros l; [done|]. simpl. rewrite IH.
    unfold processCSNPLSPEntry, processCSNPLSPEntryUnknown.
    by repeat case_match. }
  destruct (lsps l !! k) as [e|] eqn:Hk; [|done].
  destruct (processCSNP_rel from csnp l k e Hk) as (e' & He' & R).
  exists e'. split; [done|]. by apply same_on_others_flags.
Qed.

(** X15: The keys after [processCSNP] are the keys before it and the LSPIDs
    the CSNP lists, and no other. *)
Theorem processCSNP_keys (from : netIfa.t) (csnp : CSNP.t) (l : lsdb) (k : N) :
  is_Some (lsps (processCSNP' from csnp l) !! k) ↔
  is_Some (lsps l !! k) ∨ CSNP.ContainsLSPEntry csnp k = true.
Proof.
  rewrite <- !elem_of_dom, processCSNP_dom, elem_of_union, elem_of_list_to_set.
  change (CSNP.ContainsLSPEntry csnp k) with (listed (CSNP.GetLSPEntries csnp) k).
  rewrite listed_elem_of. tauto.
Qed.

(** X16: Receiving a CSNP again, from any interface, changes no key and no
    LSPDU of the store the first reception left: only flags can move. *)
Theorem processCSNP_again_same_contents
    (from from' : netIfa.t) (csnp : CSNP.t) (l : lsdb) (k : N) :
  lspdu <$> lsps (processCSNP' from' csnp (processCSNP' from csnp l)) !! k =
  lspdu <$> lsps (processCSNP' from csnp l) !! k.
Proof.
  destruct (lsps (processCSNP' from csnp l) !! k) as [e|] eqn:Hk.
  - destruct (processCSNP_rel from' csnp _ k e Hk) as (e' & -> & [Hp _]).
    simpl. by rewrite Hp.
  - apply not_elem_of_dom in Hk.
    assert (Hk' : k ∉ dom (lsps (processCSNP' from' csnp (processCSNP' from csnp l)))).
    { rewrite processCSNP_dom. intros [Hin|Hin]%elem_of_union; [|done].
      apply Hk. rewrite processCSNP_dom. apply elem_of_union. by left. }
    apply not_elem_of_dom in Hk'. by rewrite Hk'.
Qed.

End CSNP_more.

Lemma processCSNPLSPEntry_known_witness :
  lsps storeX7 !! LSPEntry.LSPID (ToLSPEntry (lspX 9 900)) = Some entryX7 ∧
  ∃ e', lsps (processCSNPLSPEntry sameAsInLSPEntry newerInDatabase olderInDatabase
                (ToLSPEntry (lspX 9 900)) ifA storeX7)
          !! LSPEntry.LSPID (ToLSPEntry (lspX 9 900)) = Some e' ∧
        lspdu e' = lspdu entryX7 ∧
        (∀ i, i ≠ ifA →
              getSRM i e' = getSRM i entryX7 ∧ getSSN i e' = getSSN i entryX7) ∧
        if sameAsInLSPEntry entryX7 (ToLSPEntry (lspX 9 900))
        then getSRM ifA e' = false ∧ getSSN ifA e' = getSSN ifA entryX7
        else if newerInDatabase entryX7 (ToLSPEntry (lspX 9 900))
        then getSRM ifA e' = true ∧ getSSN ifA e' = false
        else if olderInDatabase entryX7 (ToLSPEntry (lspX 9 900))
        then getSRM ifA e' = false ∧ getSSN ifA e' = true
        else e' = entryX7.
Proof.
  split; [vm_compute; reflexivity|].
  apply (processCSNPLSPEntry_known sameAsInLSPEntry newerInDatabase olderInDatabase
           (ToLSPEntry (lspX 9 900)) ifA storeX7 entryX7).
  vm_compute; reflexivity.
Defined.

(** ** Entries are stored under their own LSPID *)

Lemma well_keyed_lookup (l : lsdb) :
  well_keyed l ↔ ∀ k e, lsps l !! k = Some e → LSPDU.LSPID (lspdu e) = k.
Proof. unfold well_keyed. apply map_Forall_lookup. Qed.

Lemma well_keyed_inherit (l l' : lsdb) :
  (∀ k e', lsps l' !! k = Some e' →
           ∃ e, lsps l !! k = Some e ∧
                LSPDU.LSPID (lspdu e') = LSPDU.LSPID (lspdu e)) →
  well_keyed l → well_keyed l'.
Proof.
  rewrite !well_keyed_lookup. intros Hinh Hl k e' Hk.
  destruct (Hinh k e' Hk) as (e & He & ->). by apply (Hl k).
Qed.

Lemma decrementRemainingLifetimes_well_keyed (l : lsdb) :
  well_keyed l → well_keyed (decrementRemainingLifetimes l).
Proof.
  apply well_keyed_inherit. intros k e' Hk.
  rewrite decrementRemainingLifetimes_lookup in Hk.
  destruct (lsps l !! k) as [e|]; simpl in Hk; [|done].
  unfold age in Hk. destruct (_ <=? 1); [done|].
  injection Hk as <-. by exists e.
Qed.

Lemma processLSP_well_keyed (ifa : netIfa.t) (p : LSPDU.t) (l : lsdb) :
  well_keyed l → well_keyed (processLSP ifa p l).
Proof.
  rewrite !well_keyed_lookup. intros Hl k e' Hk.
  destruct (decide (k = LSPDU.LSPID p)) as [->|Hne].
  - revert Hk. unfold processLSP.
    destruct (lsps l !! LSPDU.LSPID p) as [e|] eqn:He.
    + destruct (_ <? _).
      * rewrite processNewerLSPDU_lookup. by intros [= <-].
      * destruct (_ =? _); simpl; rewrite lookup_insert_eq;
          intros [= <-]; simpl; by apply (Hl _ _ He).
    + rewrite processNewerLSPDU_lookup. by intros [= <-].
  - rewrite processLSP_other in Hk by done. by apply (Hl k).
Qed.

Lemma processPSNP_well_keyed (from : netIfa.t) (psnp : PSNP.t) (l : lsdb) :
  well_keyed l → well_keyed (processPSNP from psnp l).
Proof.
  apply well_keyed_inherit. intros k e' Hk.
  rewrite processPSNP_lookup in Hk.
  destruct (lsps l !! k) as [e|]; [|by destruct (listed _ k)].
  exists e. split; [done|].
  destruct (listed _ k); simpl in Hk; by injection Hk as <-.
Qed.

Section Keys.
Variables sameAs newer older : lsdbEntry → LSPEntry.t → bool.
Variable NewPSNPs' : N → list LSPEntry.t → N → list PSNP.t.

Lemma processCSNPLSPEntry_well_keyed (x : LSPEntry.t) (from : netIfa.t) (l : lsdb) :
  well_keyed l → well_keyed (processCSNPLSPEntry sameAs newer older x from l).
Proof.
  rewrite !well_keyed_lookup. intros Hl k e' Hk.
  destruct (decide (LSPEntry.LSPID x = k)) as [<-|Hne].
  - destruct (lsps l !! LSPEntry.LSPID x) as [e0|] eqn:He0.
    + rewrite (processCSNPLSPEntry_known_lookup _ _ _ x from l e0 He0) in Hk.
      injection Hk as <-. specialize (Hl _ _ He0). by repeat case_match.
    + revert Hk. unfold processCSNPLSPEntry, _getLSPDU. rewrite He0.
      rewrite processCSNPLSPEntryUnknown_lookup. by intros [= <-].
  - rewrite processCSNPLSPEntry_other in Hk by done. by apply (Hl k).
Qed.

Lemma processCSNP_well_keyed (from : netIfa.t) (csnp : CSNP.t) (l : lsdb) :
  well_keyed l → well_keyed (processCSNP sameAs newer older from csnp l).
Proof.
  intros Hl. unfold processCSNP.
  apply (well_keyed_inherit
           (processCSNPEntries sameAs newer older from (CSNP.GetLSPEntries csnp) l)).
  - intros k e' Hk. rewrite processCSNPGaps_lookup in Hk.
    destruct (lsps _ !! k) as [e|]; simpl in Hk; [|done].
    exists e. split; [done|]. injection Hk as <-. by destruct (isGap csnp k e).
  - revert l Hl. unfold processCSNPEntries.
    induction (CSNP.GetLSPEntries csnp) as [|x es IH]; intros l Hl; [done|].
    simpl. apply IH. by apply processCSNPLSPEntry_well_keyed.
Qed.

Lemma sendPSNPss_well_keyed (l : lsdb) :
  well_keyed l →
  well_keyed
    match outcome (sendPSNPss NewPSNPs' l) with Some l' => l' | None => l end.
Proof.
  intros Hl. unfold sendPSNPss.
  destruct (Server.nets (srv l) !! 0%nat) as [srcID|]; [|exact Hl].
  rewrite outcome_bind. destruct (outcome (forEach _ _)); simpl; [|exact Hl].
  revert Hl. apply well_keyed_inherit. intros k e' Hk.
  rewrite _clearAllSSNFlags_lookup in Hk.
  destruct (lsps l !! k) as [e|]; simpl in Hk; [|done].
  exists e. split; [done|]. by injection Hk as <-.
Qed.

Ltac well_keyed_by_operation o :=
  destruct o; simpl in *;
  first [ by apply decrementRemainingLifetimes_well_keyed
        | by apply processLSP_well_keyed
        | by apply processCSNP_well_keyed
        | by apply processPSNP_well_keyed
        | by apply sendPSNPss_well_keyed
        | assumption ].

(** X17: Every operation of the LSDB, whatever PDU it is given, keeps each
    entry stored under the LSPID of its own LSPDU; so one LSPID never
    has two entries. *)
Theorem well_keyed_preserved (o : operation) (l : lsdb) :
  well_keyed l → well_keyed (run sameAs newer older NewPSNPs' o l).
Proof. intros Hl. well_keyed_by_operation o. Qed.

Lemma reachable_well_keyed (l : lsdb) :
  reachable sameAs newer older NewPSNPs' any_input l → well_keyed l.
Proof.
  induction 1 as [s b|o l Hreach IH Hok].
  - apply map_Forall_empty.
  - well_keyed_by_operation o.
Qed.

End Keys.

Lemma well_keyed_preserved_witness :
  well_keyed storeX4 ∧
  well_keyed (run sameAsInLSPEntry newerInDatabase olderInDatabase NewPSNPs
                (ReceiveCSNP ifA csnpY) storeX4).
Proof.
  assert (Hl : well_keyed storeX4).
  { apply (bool_decide_unpack _). vm_compute. exact I. }
  split; [exact Hl|].
  exact (well_keyed_preserved sameAsInLSPEntry newerInDatabase olderInDatabase
           NewPSNPs (ReceiveCSNP ifA csnpY) storeX4 Hl).
Defined.

(** X18: An acknowledged LSP is not retransmitted to the acknowledger: after
    [processPSNP] from an interface, the next LSPDU tick sends on that
    interface no LSPDU whose LSPID the PSNP listed. *)
Theorem acknowledged_not_resent
    (from : netIfa.t) (psnp : PSNP.t) (l : lsdb) (p : LSPDU.t) (lvl : nat) :
  well_keyed l →
  listed (PSNP.GetLSPEntries psnp) (LSPDU.LSPID p) = true →
  sendLSPDU from p lvl ∉ trace (sendLSPDUs (processPSNP from psnp l)).
Proof.
  intros Hl Hlisted Hev.
  apply elem_of_sendLSPDUs in Hev as (k & e & i & Hk & Hi & _ & [= <- -> _]).
  assert (Hkey : LSPDU.LSPID (lspdu e) = k).
  { apply (proj1 (well_keyed_lookup _) (processPSNP_well_keyed from psnp l Hl) k e Hk). }
  subst k. rewrite processPSNP_lookup, Hlisted in Hk.
  destruct (lsps l !! LSPDU.LSPID (lspdu e)) as [e0|]; simpl in Hk; [|done].
  injection Hk as <-. simpl in Hi. set_solver.
Qed.

Lemma acknowledged_not_resent_witness :
  well_keyed storeX7 ∧
  listed (PSNP.GetLSPEntries (PSNP.mk 9 [ToLSPEntry (lspX 7 900)]))
    (LSPDU.LSPID (lspX 7 900)) = true ∧
  sendLSPDU ifA (lspX 7 900) 2
    ∉ trace (sendLSPDUs
               (processPSNP ifA (PSNP.mk 9 [ToLSPEntry (lspX 7 900)]) storeX7)).
Proof.
  assert (Hl : well_keyed storeX7).
  { apply (bool_decide_unpack _). vm_compute. exact I. }
  split; [exact Hl|]. split; [reflexivity|].
  exact (acknowledged_not_resent ifA (PSNP.mk 9 [ToLSPEntry (lspX 7 900)])
           storeX7 (lspX 7 900) 2 Hl eq_refl).
Defined.

(** ** Reception followed by transmission *)

(** X19: A newly installed LSPDU is flooded at the next LSPDU tick on
    exactly the managed, non-passive interfaces other than the one it
    arrived on. *)
Theorem installed_LSPDU_is_flooded
    (ifa i : netIfa.t) (p : LSPDU.t) (l : lsdb) (lvl : nat) :
  well_keyed l →
  match lsps l !! LSPDU.LSPID p with
  | None => True
  | Some stored => LSPDU.SequenceNumber (lspdu stored) < LSPDU.SequenceNumber p
  end →
  sendLSPDU i p lvl ∈ trace (sendLSPDUs (processLSP ifa p l)) ↔
  lvl = level l ∧ i ∈ Server.getAllInterfaces (srv l) ∧ i ≠ ifa ∧
  netIfa.Passive (netIfa.cfg i) = false.
Proof.
  intros Hl Hnew.
  assert (Hins : processLSP ifa p l = processNewerLSPDU ifa p l).
  { unfold processLSP. destruct (lsps l !! LSPDU.LSPID p) as [stored|]; [|done].
    apply N.ltb_lt in Hnew. by rewrite Hnew. }
  assert (Hwk : well_keyed (processLSP ifa p l)) by by apply processLSP_well_keyed.
  rewrite elem_of_sendLSPDUs. split.
  - intros (k & e & j & Hk & Hj & Hp & [= -> -> ->]).
    assert (k = LSPDU.LSPID (lspdu e)) as ->
      by (symmetry; by apply (proj1 (well_keyed_lookup _) Hwk)).
    rewrite Hins, processNewerLSPDU_lookup in Hk. injection Hk as Heq.
    apply (f_equal srmFlags) in Heq. simpl in Heq. rewrite <- Heq in Hj.
    apply elem_of_difference in Hj as [Hj Hne].
    apply elem_of_list_to_set, elem_of_getAllInterfacesExcept in Hj as [Hj _].
    rewrite Hins. split; [done|]. split; [done|]. split; [set_solver|done].
  - intros (-> & Hi & Hne & Hp). rewrite Hins.
    eexists (LSPDU.LSPID p), _, i.
    split; [apply processNewerLSPDU_lookup|]. simpl.
    split; [|done]. apply elem_of_difference. split; [|set_solver].
    by apply elem_of_list_to_set, elem_of_getAllInterfacesExcept.
Qed.

Lemma installed_LSPDU_is_flooded_witness :
  well_keyed storeX4 ∧
  match lsps storeX4 !! LSPDU.LSPID (lspX 5 1200) with
  | None => True
  | Some stored =>
      LSPDU.SequenceNumber (lspdu stored) < LSPDU.SequenceNumber (lspX 5 1200)
  end ∧
  (sendLSPDU ifB (lspX 5 1200) 2
     ∈ trace (sendLSPDUs (processLSP ifA (lspX 5 1200) storeX4)) ↔
   2%nat = level storeX4 ∧ ifB ∈ Server.getAllInterfaces (srv storeX4) ∧
   ifB ≠ ifA ∧ netIfa.Passive (netIfa.cfg ifB) = false).
Proof.
  assert (Hl : well_keyed storeX4).
  { apply (bool_decide_unpack _). vm_compute. exact I. }
  assert (Hnew : match lsps storeX4 !! LSPDU.LSPID (lspX 5 1200) with
                 | None => True
                 | Some stored =>
                     LSPDU.SequenceNumber (lspdu stored)
                     < LSPDU.SequenceNumber (lspX 5 1200)
                 end) by (vm_compute; reflexivity).
  split; [exact Hl|]. split; [exact Hnew|].
  exact (installed_LSPDU_is_flooded ifA ifB (lspX 5 1200) storeX4 2 Hl Hnew).
Defined.




(** The conditions of the second half hold on the sample data: the
    one-packet packer carries every summary it is given, and on
    [storeX7] the acknowledgement of X received again on A goes out on
    A.  On [storeP] the same reception on the passive interface P is
    followed by no PSNP at all. *)
Example acknowledgement_goes_out :
  (∀ s es m x, x ∈ es → ∃ q, q ∈ NewPSNPs s es m ∧ x ∈ PSNP.GetLSPEntries q) ∧
  trace (sendPSNPss NewPSNPs (processLSP ifA (lspX 7 1) storeX7)) ≡ₚ
    [sendPSNP ifA (PSNP.mk 7 [ToLSPEntry (lspX 7 900)]) 2;
     sendPSNP ifB (PSNP.mk 7 [ToLSPEntry (lspX 7 900)]) 2] ∧
  trace (sendPSNPss NewPSNPs (processLSP ifP (lspX 5 1200) storeP)) = [].
Proof.
  split.
  { intros s es m x Hx. destruct es as [|e es]; [by apply elem_of_nil in Hx|].
    exists (PSNP.mk s (e :: es)). split; [by apply list_elem_of_singleton|done]. }
  split; vm_compute; reflexivity.
Qed.

Section Gap_flood.
Variables sameAs newer older : lsdbEntry → LSPEntry.t → bool.

Lemma processCSNP_level (from : netIfa.t) (csnp : CSNP.t) (l : lsdb) :
  level (processCSNP sameAs newer older from csnp l) = level l.
Proof.
  assert (HL1 : isL1 (processCSNP sameAs newer older from csnp l) = isL1 l).
  { unfold processCSNP, processCSNPGaps, processCSNPEntries. simpl.
    generalize (CSNP.GetLSPEntries csnp). intros es. revert l.
    induction es as [|x es IH]; intros l; [done|]. simpl. rewrite IH.
    unfold processCSNPLSPEntry, processCSNPLSPEntryUnknown.
    by repeat case_match. }
  unfold level. by rewrite HL1.
Qed.

(** X21: An LSP the neighbour's CSNP should have described and did not (in
    range, not listed, lifetime and sequence number positive) is sent to
    that neighbour at the next LSPDU tick, unless the interface is
    passive. *)
Theorem gap_is_flooded
    (from : netIfa.t) (csnp : CSNP.t) (l : lsdb) (k : N) (e : lsdbEntry) :
  lsps l !! k = Some e →
  isGap csnp k e = true →
  netIfa.Passive (netIfa.cfg from) = false →
  sendLSPDU from (lspdu e) (level l)
    ∈ trace (sendLSPDUs (processCSNP sameAs newer older from csnp l)).
Proof.
  intros Hk Hgap Hp.
  assert (Hunl : listed (CSNP.GetLSPEntries csnp) k = false).
  { unfold isGap in Hgap.
    apply andb_prop in Hgap as [Hgap _]. apply andb_prop in Hgap as [Hgap _].
    apply andb_prop in Hgap as [_ Hgap]. by apply negb_true_iff in Hgap. }
  pose proof (processCSNP_level from csnp l) as Hlvl.
  apply elem_of_sendLSPDUs. exists k, (setSRM from e), from.
  split.
  { unfold processCSNP.
    rewrite processCSNPGaps_lookup, processCSNPEntries_unlisted, Hk by done.
    simpl. by rewrite Hgap. }
  split; [simpl; set_solver|]. split; [done|]. by rewrite Hlvl.
Qed.

End Gap_flood.

Lemma gap_is_flooded_witness :
  lsps storeX4 !! 10 = Some (mkEntry (lspX 4 900) {[ifC]} {[ifB]}) ∧
  isGap csnpY 10 (mkEntry (lspX 4 900) {[ifC]} {[ifB]}) = true ∧
  netIfa.Passive (netIfa.cfg ifA) = false ∧
  sendLSPDU ifA (lspdu (mkEntry (lspX 4 900) {[ifC]} {[ifB]})) (level storeX4)
    ∈ trace (sendLSPDUs
               (processCSNP sameAsInLSPEntry newerInDatabase olderInDatabase
                  ifA csnpY storeX4)).
Proof.
  split; [vm_compute; reflexivity|]. split; [vm_compute; reflexivity|].
  split; [reflexivity|].
  apply (gap_is_flooded sameAsInLSPEntry newerInDatabase olderInDatabase
           ifA csnpY storeX4 10 (mkEntry (lspX 4 900) {[ifC]} {[ifB]}));
    [vm_compute; reflexivity | vm_compute; reflexivity | reflexivity].
Defined.

(** ** The CSNP transmit routine without a NET *)

Section CSNP_transmit.
Variable NewCSNPs' : N → list LSPEntry.t → N → list CSNP.t.

(** X22: Without a NET the CSNP transmit routine sends nothing; it returns
    when no managed interface has an up L2 neighbour and panics, at the
    first interface that has one, otherwise. *)
Theorem sendCSNPss_without_NET (l : lsdb) :
  Server.nets (srv l) !! 0%nat = None →
  trace (sendCSNPss NewCSNPs' l) = [] ∧
  outcome (sendCSNPss NewCSNPs' l) =
    if forallb (λ ifa, (length (netIfa.getNeighborsUp ifa) <? 1)%nat)
         (Server.getAllInterfaces (srv l))
    then Some tt else None.
Proof.
  intros Hnet. unfold sendCSNPss.
  induction (Server.getAllInterfaces (srv l)) as [|ifa rest [IHt IHo]]; [done|].
  simpl. rewrite trace_bind, outcome_bind.
  destruct (length (netIfa.getNeighborsUp ifa) <? 1)%nat; simpl.
  - by rewrite IHt, IHo.
  - unfold sendCSNPs, getCSNPs. by rewrite Hnet.
Qed.

End CSNP_transmit.

Lemma sendCSNPss_without_NET_witness :
  Server.nets (srv storeNoNet) !! 0%nat = None ∧
  trace (sendCSNPss NewCSNPs storeNoNet) = [] ∧
  outcome (sendCSNPss NewCSNPs storeNoNet) =
    if forallb (λ ifa, (length (netIfa.getNeighborsUp ifa) <? 1)%nat)
         (Server.getAllInterfaces (srv storeNoNet))
    then Some tt else None.
Proof.
  split; [reflexivity|].
  apply (sendCSNPss_without_NET NewCSNPs storeNoNet). reflexivity.
Defined.

(** * The BGP API server *)

Section BGPAPIServer_properties.
Context {ProtoIP IP Route ProtoRoute Stream Err : Type}.
Variable IPFromProtoIP : ProtoIP → IP.
Variable ToProto : Route → ProtoRoute.
Variable Send : Stream → ProtoRoute → Stream * option Err.

Lemma routesToProto_from (dump : list Route) (n a : nat) :
  (a + n = length dump)%nat →
  foldl
    (λ routes i,
       match dump !! i with
       | Some r => <[i := Some (ToProto r)]> routes
       | None => routes
       end)
    ((Some ∘ ToProto <$> take a dump) ++ replicate n None) (seq a n)
  = Some ∘ ToProto <$> dump.
Proof.
  revert a. induction n as [|n IH]; intros a Ha; simpl.
  - rewrite app_nil_r, take_ge by lia. done.
  - destruct (lookup_lt_is_Some_2 dump a) as [r Hr]; [lia|]. rewrite Hr.
    rewrite insert_app_r_alt by (rewrite length_fmap, length_take; lia).
    rewrite length_fmap, length_take, Nat.min_l by lia.
    rewrite Nat.sub_diag. simpl.
    rewrite <- (IH (S a)) by lia. f_equal.
    rewrite (take_S_r _ _ _ Hr), fmap_app, <- app_assoc. done.
Qed.

Lemma routesToProto_fmap (dump : list Route) :
  routesToProto ToProto dump = Some ∘ ToProto <$> dump.
Proof.
  unfold routesToProto.
  apply (routesToProto_from dump (length dump) 0). lia.
Qed.

(** X23: [routesToProto] converts position by position: the result is as
    long as the dump, no slot is left nil, and slot [i] is the
    conversion of route [i]. *)
Theorem routesToProto_pointwise (dump : list Route) (i : nat) :
  length (routesToProto ToProto dump) = length dump ∧
  Forall (λ slot, slot ≠ None) (routesToProto ToProto dump) ∧
  routesToProto ToProto dump !! i = Some ∘ ToProto <$> dump !! i.
Proof.
  rewrite routesToProto_fmap. split; [by rewrite length_fmap|]. split.
  - apply Forall_fmap, Forall_forall. by intros r _.
  - by rewrite list_lookup_fmap.
Qed.

Lemma sendRoutes_exact (dump : list Route) (stream : Stream) :
  ∃ n, (n ≤ length dump)%nat ∧
       (sendRoutes ToProto Send dump stream).1.1 = ToProto <$> take n dump ∧
       (sendRoutes ToProto Send dump stream).1.2 =
         streamAfter Send (sendRoutes ToProto Send dump stream).1.1 stream ∧
       (∀ i x,
          (sendRoutes ToProto Send dump stream).1.1 !! i = Some x →
          (Send (streamAfter Send
                   (take i (sendRoutes ToProto Send dump stream).1.1) stream) x).2 =
            if decide (S i = n) then (sendRoutes ToProto Send dump stream).2
            else None) ∧
       match (sendRoutes ToProto Send dump stream).2 with
       | None => n = length dump
       | Some _ => (1 ≤ n)%nat
       end.
Proof.
  revert stream. induction dump as [|r dump IH]; intros stream; simpl.
  - exists 0%nat. by repeat split.
  - destruct (Send stream (ToProto r)) as [stream' res0] eqn:Hsend.
    destruct res0 as [err|].
    + exists 1%nat. simpl. split; [lia|]. split; [done|].
      split; [unfold streamAfter; simpl; by rewrite Hsend|].
      split; [|lia].
      intros [|i] x Hx; simpl in Hx; [|done].
      injection Hx as <-. simpl. by rewrite Hsend.
    + destruct (IH stream') as (n & Hn & Hsent & Hstream & Hsends & Hres).
      destruct (sendRoutes ToProto Send dump stream') as [[sent s''] res].
      simpl in *. exists (S n). split; [lia|]. split; [by rewrite Hsent|].
      split; [unfold streamAfter; simpl; by rewrite Hsend|].
      split; [|destruct res; lia].
      intros [|i] x Hx; simpl in Hx.
      * injection Hx as <-. simpl. rewrite Hsend. simpl.
        case_decide as Hn1; [|done].
        assert (n = 0%nat) as -> by lia. destruct res; [lia|done].
      * simpl. unfold streamAfter at 1. simpl. rewrite Hsend. simpl.
        fold (streamAfter Send (take i sent) stream').
        rewrite (Hsends i x Hx). by repeat case_decide; try lia.
Qed.

(** X24: [DumpRIBIn] and [DumpRIBOut] panic on a request without a
    peer.  Otherwise they hand to [stream.Send], in order, the
    conversions of the first [n] routes of the RIB dump of that peer (the
    leading slots of [routesToProto] of it) and nothing more; every Send
    before the last returned no error, and what the last Send returned
    is what the call returns: nil after the whole dump, or the error of
    the first failing Send, after which no further route is sent.  The
    stream is left as those [n] Sends left it. *)
Theorem DumpRIB_streams_prefix
    (srvDump : IP → N → N → list Route)
    (req : @DumpRIBRequest ProtoIP) (stream : Stream) :
  match Peer req with
  | None => DumpRIBIn IPFromProtoIP ToProto Send srvDump req stream = None
  | Some peer =>
      let dump :=
        srvDump (IPFromProtoIP peer) (Afi req mod 2 ^ 16) (Safi req mod 2 ^ 8) in
      ∃ sent stream' res n,
        DumpRIBIn IPFromProtoIP ToProto Send srvDump req stream
          = Some (sent, stream', res) ∧
        (n ≤ length dump)%nat ∧
        sent = ToProto <$> take n dump ∧
        Some <$> sent = take n (routesToProto ToProto dump) ∧
        stream' = streamAfter Send sent stream ∧
        (∀ i x, sent !! i = Some x →
                (Send (streamAfter Send (take i sent) stream) x).2 =
                  if decide (S i = n) then res else None) ∧
        match res with
        | None => n = length dump
        | Some _ => (1 ≤ n)%nat
        end
  end ∧
  DumpRIBOut IPFromProtoIP ToProto Send srvDump req stream
    = DumpRIBIn IPFromProtoIP ToProto Send srvDump req stream.
Proof.
  split; [|done]. unfold DumpRIBIn.
  destruct (Peer req) as [peer|]; [|done].
  set (dump := srvDump (IPFromProtoIP peer) (Afi req mod 2 ^ 16) (Safi req mod 2 ^ 8)).
  destruct (sendRoutes_exact dump stream) as (n & Hn & Hsent & Hstream & Hsends & Hres).
  destruct (sendRoutes ToProto Send dump stream) as [[sent stream'] res].
  simpl in *. exists sent, stream', res, n.
  split; [done|]. split; [done|]. split; [done|]. split.
  { rewrite Hsent, routesToProto_fmap, <- fmap_take, list_fmap_compose. done. }
  done.
Qed.

End BGPAPIServer_properties.

(** Three routes over a stream that breaks after two messages: the
    first two are delivered, the third is handed over, fails, and its
    error is returned; with a budget of one the third route is never
    handed over.  The AFI is cut to 16 bits and a request without a
    peer panics. *)
Example dump_on_breaking_stream :
  let rib (peer afi safi : N) : list N := [peer; afi; safi] in
  DumpRIBIn (λ ip : N, ip + 1) (λ r : N, 2 * r) budgetSend rib
    (mkDumpRIBRequest (Some 0) (2 ^ 16 + 2) 3) (2%nat, []) =
    Some ([2; 4; 6], (0%nat, [2; 4]), Some 0) ∧
  DumpRIBIn (λ ip : N, ip + 1) (λ r : N, 2 * r) budgetSend rib
    (mkDumpRIBRequest (Some 0) (2 ^ 16 + 2) 3) (1%nat, []) =
    Some ([2; 4], (0%nat, [2]), Some 0) ∧
  DumpRIBIn (λ ip : N, ip + 1) (λ r : N, 2 * r) budgetSend rib
    (mkDumpRIBRequest (Some 0) (2 ^ 16 + 2) 3) (5%nat, []) =
    Some ([2; 4; 6], (2%nat, [2; 4; 6]), None) ∧
  DumpRIBIn (λ ip : N, ip + 1) (λ r : N, 2 * r) budgetSend rib
    (mkDumpRIBRequest None 1 1) (5%nat, []) = None ∧
  routesToProto (λ r : N, 2 * r) [1; 2; 3] = [Some 2; Some 4; Some 6].
Proof. vm_compute. done. Qed.
